(** * CutZero: the silence remover of [CutZero1.py]

    A shallow embedding of [SilenceRemover.run] and of the library calls it
    relies on ([max], [min], [int], [enumerate], [numpy.arange],
    [os.path.splitext], [str.lower], [str.endswith]).

    Numbers.  The program computes on Python floats.  Times, levels and the
    threshold are embedded as exact rationals ([Q]); rounding of binary
    floating point is outside this model.  Equalities between times are
    therefore stated with [Qeq] ([==]), and a quotient of the program is the
    exact quotient: where the program's double quotient rounds across a
    whole number, its count of windows or its [chunk_count] differs by one
    from the model's.  Statements that would turn on such a rounding are
    given in a form that holds either way, and [Module Binary64] renders the
    segment-building step on doubles for the one property decided by
    rounding.

    Effects.  The Qt signals emitted by [run], together with the resource
    operations on the media (open, window decoding, writing, closing), are
    collected in a trace of [event]s.  Calls into MoviePy that may raise are
    oracles of the [Media] record. *)

From Stdlib Require Import ZArith QArith Qround Lia Lqa List Sorted Bool.
From Stdlib Require Import Ascii String.
From Stdlib Require Uint63 PrimFloat.
Import ListNotations.

Local Open Scope Q_scope.

(** ** Python built-ins *)

Module Py.

(** [max(a, b)]: the first argument unless the second is strictly greater. *)
Definition max (a b : Q) : Q := if Qlt_le_dec a b then b else a.

(** [min(a, b)]: the first argument unless the second is strictly smaller. *)
Definition min (a b : Q) : Q := if Qlt_le_dec b a then b else a.

(** [int(x)]: truncation towards zero. *)
Definition int (x : Q) : Z := if Qlt_le_dec x 0 then Qceiling x else Qfloor x.

(** [enumerate(xs)]. *)
Definition enumerate {A : Type} (xs : list A) : list (nat * A) :=
  combine (seq 0 (List.length xs)) xs.

(** [np.arange(start, stop, step)]: [ceil((stop - start) / step)] values
    (none when that is not positive), the [i]-th being [start + i * step].
    NumPy takes the ceiling of the quotient as a double; the quotient is
    exact here, so that the length can differ by one when the double
    quotient rounds to or across a whole number (2.1 / 0.3 is
    7.000000000000001 as a double, which gives eight values). *)
Definition arange (start stop step : Q) : list Q :=
  map (fun i => start + inject_Z (Z.of_nat i) * step)
      (seq 0 (Z.to_nat (Qceiling ((stop - start) / step)))).

(** [c.lower()] on one ASCII character. *)
Definition lower_ascii (a : ascii) : ascii :=
  let n := nat_of_ascii a in
  if ((65 <=? n) && (n <=? 90))%nat then ascii_of_nat (n + 32) else a.

(** [s.lower()]. *)
Fixpoint lower (s : string) : string :=
  match s with
  | EmptyString => EmptyString
  | String a s' => String (lower_ascii a) (lower s')
  end.

(** [s[i:]] and [s[:i]] for [0 <= i]. *)
Definition slice_from (i : nat) (s : string) : string :=
  substring i (String.length s - i) s.

Definition slice_to (i : nat) (s : string) : string := substring 0 i s.

(** [s.endswith(suffix)]. *)
Definition endswith (s suffix : string) : bool :=
  (String.length suffix <=? String.length s)%nat &&
  String.eqb (slice_from (String.length s - String.length suffix) s) suffix.

(** [s.endswith((suffix1, suffix2, ...))]. *)
Definition endswith_any (s : string) (suffixes : list string) : bool :=
  existsb (endswith s) suffixes.

(** [s.rfind(ch)]: the index of the last [ch], [-1] without one. *)
Fixpoint rfind_from (ch : ascii) (s : string) (i last : Z) : Z :=
  match s with
  | EmptyString => last
  | String a s' =>
      rfind_from ch s' (i + 1)%Z (if Ascii.eqb a ch then i else last)
  end.

Definition rfind (s : string) (ch : ascii) : Z := rfind_from ch s 0%Z (-1)%Z.

(** [s[i] != '.'], for the scan of leading dots in [splitext]. *)
Definition not_dot_at (s : string) (i : nat) : bool :=
  match String.get i s with
  | Some a => negb (Ascii.eqb a ".")
  | None => true
  end.

(** [os.path.splitext(p)] of [posixpath]: split at the last dot of the last
    path component, unless that component consists of leading dots up to
    it. *)
Definition splitext (p : string) : string * string :=
  let sepIndex := rfind p "/" in
  let dotIndex := rfind p "." in
  if (sepIndex <? dotIndex)%Z
  then
    let filenameIndex := Z.to_nat (sepIndex + 1) in
    if existsb (not_dot_at p)
               (seq filenameIndex (Z.to_nat dotIndex - filenameIndex))
    then (slice_to (Z.to_nat dotIndex) p, slice_from (Z.to_nat dotIndex) p)
    else (p, EmptyString)
  else (p, EmptyString).

End Py.

(** ** Segments: the time ranges handed to [media.subclip] (lines 71-88) *)

Record Segment : Type := mkSegment { seg_start : Q; seg_end : Q }.

Definition seg_eq (a b : Segment) : Prop :=
  seg_start a == seg_start b /\ seg_end a == seg_end b.

(** The argument pair of the [media.subclip] calls of lines 77-80 and
    85-88, for [self.chunk_duration] and [media.duration]. *)
Definition padded (chunk_duration duration start_time prev_time : Q)
  : Segment :=
  mkSegment (Py.max 0 (start_time - chunk_duration))
            (Py.min duration (prev_time + chunk_duration)).

(** The test of line 76: [t - prev_time > self.chunk_duration * 1.5]. *)
Definition gap_exceeded (chunk_duration prev_time t : Q) : bool :=
  if Qlt_le_dec (chunk_duration * (3 # 2)) (t - prev_time)
  then true else false.

(** The loop of lines 75-82 followed by the append of lines 85-88; [clips]
    is the list built so far. *)
Fixpoint clip_loop (chunk_duration duration start_time prev_time : Q)
         (rest : list Q) (clips : list Segment) : list Segment :=
  match rest with
  | [] => clips ++ [padded chunk_duration duration start_time prev_time]
  | t :: rest' =>
      if gap_exceeded chunk_duration prev_time t
      then clip_loop chunk_duration duration t t rest'
             (clips ++ [padded chunk_duration duration start_time prev_time])
      else clip_loop chunk_duration duration start_time t rest' clips
  end.

(** Lines 68-88 on the list [nonsilent_chunks]; [None] stands for the
    exception raised at line 69. *)
Definition build_clips (chunk_duration duration : Q)
           (nonsilent_chunks : list Q) : option (list Segment) :=
  match nonsilent_chunks with
  | [] => None
  | t0 :: rest => Some (clip_loop chunk_duration duration t0 t0 rest [])
  end.

(** The [k]-th value of [np.arange(0, duration, chunk_duration)]: the start
    time of the [k]-th analysis window. *)
Definition grid (chunk_duration : Q) (k : nat) : Q :=
  0 + inject_Z (Z.of_nat k) * chunk_duration.

(** Properties of segments used in the statements below. *)
Definition well_formed (duration : Q) (s : Segment) : Prop :=
  0 <= seg_start s /\ seg_start s < seg_end s /\ seg_end s <= duration.

Definition non_overlapping (a b : Segment) : Prop :=
  seg_end a <= seg_start b.

Definition covers (s : Segment) (t : Q) : Prop :=
  seg_start s <= t /\ t <= seg_end s.

(** ** The worker's environment *)

(** What decoding one analysis window gives (lines 48-54): no audio in the
    sub-clip ([chunk is None]), the RMS level of its samples, or an
    exception of MoviePy. *)
Inductive decoded : Type :=
| NoChunk
| Level (volume : Q)
| DecodeRaises (msg : string).

(** An opened clip.  [has_audio] is [media.audio is not None]; the other
    fields are the outcomes of the MoviePy calls made on the clip: decoding
    a window of the analysis, [media.subclip], [concatenate_audioclips] or
    [concatenate_videoclips], and [write_audiofile] or [write_videofile],
    each of which may raise.  The two [close()] calls do not raise. *)
Record Media : Type := mkMedia {
  media_duration : Q;
  has_audio : bool;
  soundarray_rms : Q -> Q -> decoded;
  subclip_raises : Q -> Q -> option string;
  concatenate_raises : list Segment -> option string;
  write_raises : string -> option string
}.

(** The constructors [AudioFileClip(path)] and [VideoFileClip(path)]: an
    exception message or the opened clip. *)
Record MoviePy : Type := mkMoviePy {
  AudioFileClip : string -> string + Media;
  VideoFileClip : string -> string + Media
}.

(** The fields set by [SilenceRemover.__init__]. *)
Record SilenceRemover : Type := mkSilenceRemover {
  input_path : string;
  threshold : Q;
  chunk_duration : Q;
  is_audio_only : bool
}.

Definition audio_extensions : list string :=
  [".mp3"; ".wav"; ".ogg"; ".flac"; ".aac"]%string.

(** [SilenceRemover.__init__] (lines 16-21). *)
Definition init (input_path : string) (threshold chunk_duration : Q)
  : SilenceRemover :=
  mkSilenceRemover input_path threshold chunk_duration
    (Py.endswith_any (Py.lower input_path) audio_extensions).

(** The four signals of the worker and the operations on external
    resources, in the order in which [run] performs them. *)
Inductive event : Type :=
| Status (text : string)
| Progress (value : Z)
| Finished (output_path : string)
| Error (msg : string)
| Opened
| Decoded (t end_t : Q)
| Written (output_path : string)
| FinalClosed
| MediaClosed.

(** ** Computations that emit events and may raise *)

Definition M (A : Type) : Type := list event * (string + A).

Definition ret {A : Type} (a : A) : M A := ([], inr a).

Definition raise {A : Type} (msg : string) : M A := ([], inl msg).

Definition emit (e : event) : M unit := ([e], inr tt).

Definition bind {A B : Type} (m : M A) (k : A -> M B) : M B :=
  match m with
  | (tr, inl msg) => (tr, inl msg)
  | (tr, inr a) => let (tr', r) := k a in (tr ++ tr', r)
  end.

Notation "x <- m ;; k" := (bind m (fun x => k))
  (at level 61, m at next level, right associativity).
Notation "m ;; k" := (bind m (fun _ => k))
  (at level 61, right associativity).

(** A MoviePy call that returns nothing of interest or raises. *)
Definition call (outcome : option string) : M unit :=
  match outcome with
  | Some msg => raise msg
  | None => ret tt
  end.

(** ** The phases of [run] *)

Definition no_audio_track : string := "No audio track found in the file!".
Definition no_nonsilent : string := "No non-silent parts found in the media!".
Definition float_division_by_zero : string := "float division by zero".
Definition division_by_zero : string := "division by zero".
Definition output_path_unbound : string :=
  "cannot access local variable 'output_path' where it is not associated with a value".

(** Lines 25-37. *)
Definition load_phase (self : SilenceRemover) (lib : MoviePy) : M Media :=
  emit (Status "Loading media...") ;;
  media <- (match (if is_audio_only self
                   then AudioFileClip lib (input_path self)
                   else VideoFileClip lib (input_path self)) with
            | inl msg => raise msg
            | inr media => emit Opened ;; ret media
            end) ;;
  (if is_audio_only self || has_audio media
   then ret tt else raise no_audio_track) ;;
  emit (Progress 10) ;;
  ret media.

(** The progress value of line 55: [10 + int((i / chunk_count) * 30)]. *)
Definition analysis_progress (chunk_count : Z) (i : nat) : Z :=
  (10 + Py.int (inject_Z (Z.of_nat i) / inject_Z chunk_count * 30))%Z.

(** The body of the loop of lines 46-56 over the enumerated window starts;
    the result is the list [audio_chunks]. *)
Fixpoint analyze_loop (self : SilenceRemover) (media : Media)
         (chunk_count : Z) (windows : list (nat * Q)) : M (list (Q * Q)) :=
  match windows with
  | [] => ret []
  | (i, t) :: windows' =>
      let end_t := Py.min (t + chunk_duration self) (media_duration media) in
      emit (Decoded t end_t) ;;
      chunk <- (match soundarray_rms media t end_t with
                | DecodeRaises msg => raise msg
                | NoChunk => ret []
                | Level volume => ret [(t, volume)]
                end) ;;
      (if (chunk_count =? 0)%Z then raise division_by_zero else ret tt) ;;
      emit (Progress (analysis_progress chunk_count i)) ;;
      audio_chunks <- analyze_loop self media chunk_count windows' ;;
      ret (chunk ++ audio_chunks)
  end.

(** The windows visited by the loop of line 46. *)
Definition windows (self : SilenceRemover) (media : Media) : list (nat * Q) :=
  Py.enumerate (Py.arange 0 (media_duration media) (chunk_duration self)).

(** Lines 40-56. *)
Definition analysis_phase (self : SilenceRemover) (media : Media)
  : M (list (Q * Q)) :=
  emit (Status "Analyzing audio...") ;;
  chunk_count <- (if Qeq_dec (chunk_duration self) 0
                  then raise float_division_by_zero
                  else ret (Py.int (media_duration media
                                    / chunk_duration self))) ;;
  analyze_loop self media chunk_count (windows self media).

(** Lines 59-63: the start times of the chunks louder than the threshold. *)
Fixpoint detect (threshold : Q) (audio_chunks : list (Q * Q)) : list Q :=
  match audio_chunks with
  | [] => []
  | (t, volume) :: audio_chunks' =>
      if Qlt_le_dec threshold volume
      then t :: detect threshold audio_chunks'
      else detect threshold audio_chunks'
  end.

(** The [media.subclip] calls of lines 77-80 and 85-88, in order. *)
Fixpoint subclips (media : Media) (segments : list Segment) : M unit :=
  match segments with
  | [] => ret tt
  | s :: segments' =>
      call (subclip_raises media (seg_start s) (seg_end s)) ;;
      subclips media segments'
  end.

(** Lines 58-88. *)
Definition clips_phase (self : SilenceRemover) (media : Media)
           (audio_chunks : list (Q * Q)) : M (list Segment) :=
  emit (Status "Detecting silent parts...") ;;
  let nonsilent_chunks := detect (threshold self) audio_chunks in
  emit (Progress 50) ;;
  emit (Status "Creating clips...") ;;
  match build_clips (chunk_duration self) (media_duration media)
                    nonsilent_chunks with
  | None => raise no_nonsilent
  | Some clips => subclips media clips ;; ret clips
  end.

(** The path computed at lines 94, 99-100 and 109. *)
Definition output_path_of (self : SilenceRemover) : string :=
  (fst (Py.splitext (input_path self)) ++ "_no_silence"
   ++ (if is_audio_only self
       then snd (Py.splitext (input_path self))
       else ".mp4"))%string.

(** Lines 90-125. *)
Definition save_phase (self : SilenceRemover) (media : Media)
           (clips : list Segment) : M unit :=
  emit (Progress 70) ;;
  emit (Status "Combining clips...") ;;
  match clips with
  | [] =>
      emit MediaClosed ;;
      emit (Progress 100) ;;
      raise output_path_unbound
  | _ :: _ =>
      call (concatenate_raises media clips) ;;
      emit (Status (if is_audio_only self
                    then "Saving audio..." else "Saving video...")) ;;
      call (write_raises media (output_path_of self)) ;;
      emit (Written (output_path_of self)) ;;
      emit FinalClosed ;;
      emit MediaClosed ;;
      emit (Progress 100) ;;
      emit (Finished (output_path_of self))
  end.

(** The [try] block of [run] (lines 25-125). *)
Definition run_body (self : SilenceRemover) (lib : MoviePy) : M unit :=
  media <- load_phase self lib ;;
  audio_chunks <- analysis_phase self media ;;
  clips <- clips_phase self media audio_chunks ;;
  save_phase self media clips.

(** [SilenceRemover.run] (lines 23-128): the trace of the [try] block,
    followed by the [error] signal when it raised. *)
Definition run (self : SilenceRemover) (lib : MoviePy) : list event :=
  match run_body self lib with
  | (tr, inl msg) => tr ++ [Error msg]
  | (tr, inr _) => tr
  end.

(** ** Observations on traces *)

Definition is_terminal (e : event) : bool :=
  match e with
  | Finished _ | Error _ => true
  | _ => false
  end.

Fixpoint progress_values (tr : list event) : list Z :=
  match tr with
  | [] => []
  | Progress v :: tr' => v :: progress_values tr'
  | _ :: tr' => progress_values tr'
  end.

Fixpoint decoded_windows (tr : list event) : list (Q * Q) :=
  match tr with
  | [] => []
  | Decoded t end_t :: tr' => (t, end_t) :: decoded_windows tr'
  | _ :: tr' => decoded_windows tr'
  end.

(** Events of the phases before saving: neither a terminal signal nor a
    write or a close. *)
Definition quiet (e : event) : Prop :=
  match e with
  | Status _ | Progress _ | Opened | Decoded _ _ => True
  | _ => False
  end.

(** Non-decreasing progress values within bounds. *)
Definition rising (lo hi : Z) (values : list Z) : Prop :=
  StronglySorted Z.le values /\ Forall (fun v => (lo <= v <= hi)%Z) values.

(** The events of a load that succeeds (lines 25-37), of the detection and
    clip creation (lines 58-66) and of a save that succeeds (lines 90-125). *)
Definition load_trace : list event :=
  [Status "Loading media..."; Opened; Progress 10].

Definition clips_trace : list event :=
  [Status "Detecting silent parts..."; Progress 50; Status "Creating clips..."].

Definition saving_status (self : SilenceRemover) : event :=
  Status (if is_audio_only self then "Saving audio..." else "Saving video...").

Definition save_trace (self : SilenceRemover) : list event :=
  [Progress 70; Status "Combining clips..."; saving_status self;
   Written (output_path_of self); FinalClosed; MediaClosed; Progress 100;
   Finished (output_path_of self)].

(** ** Sample environments *)

(** A clip of the given duration whose windows all decode to the level given
    by [level], and on which no MoviePy call raises. *)
Definition clip (duration : Q) (level : Q -> Q) : Media :=
  mkMedia duration true (fun t _ => Level (level t))
          (fun _ _ => None) (fun _ => None) (fun _ => None).

(** A library that opens every path as the given clip. *)
Definition always (media : Media) : MoviePy :=
  mkMoviePy (fun _ => inr media) (fun _ => inr media).

(** ** Measures on clips and windows *)

(** The number of times the test of line 76 succeeds over the loop of lines
    75-82, [prev_time] being the last time seen. *)
Fixpoint count_splits (chunk_duration prev_time : Q) (rest : list Q) : nat :=
  match rest with
  | [] => 0
  | t :: rest' =>
      (if gap_exceeded chunk_duration prev_time t then 1 else 0)
      + count_splits chunk_duration t rest'
  end.

(** The summed duration of a list of clips: the duration of their
    concatenation (lines 97 and 108). *)
Fixpoint total_duration (clips : list Segment) : Q :=
  match clips with
  | [] => 0
  | s :: clips' => (seg_end s - seg_start s) + total_duration clips'
  end.

(** The [(t, end_t)] pair of the window of line 47 that starts at [t]. *)
Definition window_of (self : SilenceRemover) (media : Media) (t : Q) : Q * Q :=
  (t, Py.min (t + chunk_duration self) (media_duration media)).

(** What the loop of lines 46-54 appends to [audio_chunks] for one window
    that decodes without raising. *)
Definition chunk_of (self : SilenceRemover) (media : Media) (t : Q)
  : list (Q * Q) :=
  match soundarray_rms media t (snd (window_of self media t)) with
  | Level volume => [(t, volume)]
  | _ => []
  end.

(** ** The main window (lines 130-224) *)

(** The default arguments of [SilenceRemover.__init__] (line 16). *)
Definition default_threshold : Q := 4 # 100.
Definition default_chunk_duration : Q := 1 # 10.

(** The range and the initial value of the threshold slider (lines
    149-150). *)
Definition slider_minimum : Z := 1.
Definition slider_maximum : Z := 200.
Definition slider_initial : Z := 40.

(** The threshold handed to the worker (line 203):
    [0.0001 + self.threshold_slider.value() / 10000]. *)
Definition slider_threshold (value : Z) : Q :=
  (1 # 10000) + inject_Z value / 10000.

(** The widgets of the window that the slots change, and the worker.  The
    threshold label of lines 153 and 181-184 only displays the slider value
    and is left out. *)
Record MainWindow : Type := mkMainWindow {
  select_button_enabled : bool;
  threshold_slider : Z;
  status_label : string;
  progress_bar_visible : bool;
  progress_bar_value : Z;
  worker : option SilenceRemover
}.

(** [MainWindow.__init__] (lines 131-179); a fresh [QProgressBar] has the
    range 0 to 100 and the value -1. *)
Definition new_window : MainWindow :=
  mkMainWindow true slider_initial "Select a video or audio file to begin"
               false (-1) None.

(** [QProgressBar.setValue] with the range 0 to 100: a value outside the
    range is ignored. *)
Definition set_value (w : MainWindow) (value : Z) : MainWindow :=
  if ((0 <=? value) && (value <=? 100))%Z
  then mkMainWindow (select_button_enabled w) (threshold_slider w)
                    (status_label w) (progress_bar_visible w) value (worker w)
  else w.

(** [update_progress] (lines 211-212). *)
Definition update_progress (w : MainWindow) (value : Z) : MainWindow :=
  set_value w value.

(** [update_status] (lines 214-215). *)
Definition update_status (w : MainWindow) (message : string) : MainWindow :=
  mkMainWindow (select_button_enabled w) (threshold_slider w) message
               (progress_bar_visible w) (progress_bar_value w) (worker w).

Definition newline : string := String "010" EmptyString.

(** [processing_finished] (lines 217-219). *)
Definition processing_finished (w : MainWindow) (output_path : string)
  : MainWindow :=
  mkMainWindow true (threshold_slider w)
               ("Done! Saved as:" ++ newline ++ output_path)
               (progress_bar_visible w) (progress_bar_value w) (worker w).

(** [processing_error] (lines 221-224). *)
Definition processing_error (w : MainWindow) (error_message : string)
  : MainWindow :=
  mkMainWindow true (threshold_slider w) ("Error: " ++ error_message)
               false (progress_bar_value w) (worker w).

(** The part of [select_media] that follows the file dialog (lines 194-209),
    up to [self.worker.start()]; [file_path] is what the dialog returned,
    the empty string when it was cancelled. *)
Definition select_media (w : MainWindow) (file_path : string) : MainWindow :=
  match file_path with
  | EmptyString => w
  | _ =>
      set_value
        (mkMainWindow false (threshold_slider w) "Processing media..."
                      true (progress_bar_value w)
                      (Some (init file_path
                                  (slider_threshold (threshold_slider w))
                                  default_chunk_duration)))
        0
  end.

(** The slot connected to each signal (lines 205-208); the other events of a
    trace are not signals. *)
Definition slot (w : MainWindow) (e : event) : MainWindow :=
  match e with
  | Progress value => update_progress w value
  | Status text => update_status w text
  | Finished output_path => processing_finished w output_path
  | Error msg => processing_error w msg
  | _ => w
  end.

(** The window after the signals of a trace were delivered in order. *)
Definition deliver (w : MainWindow) (tr : list event) : MainWindow :=
  fold_left slot tr w.

(** [select_media] followed by the whole run of the worker it starts. *)
Definition process_file (w : MainWindow) (lib : MoviePy) (file_path : string)
  : MainWindow :=
  let w' := select_media w file_path in
  match file_path with
  | EmptyString => w'
  | _ =>
      match worker w' with
      | Some self => deliver w' (run self lib)
      | None => w'
      end
  end.

(** ** The segment-building step on doubles *)

(** Lines 71-88 as the program computes them, on binary64 numbers; used
    where a property turns on rounding. *)
Module Binary64.

(** The double of a natural number (exact below 2^53). *)
Definition of_nat (n : nat) : PrimFloat.float :=
  PrimFloat.of_uint63 (Uint63.of_Z (Z.of_nat n)).








End Binary64.

(** ** Facts on the built-ins *)

Lemma max_spec (a b : Q) :
  (a < b /\ Py.max a b = b) \/ (b <= a /\ Py.max a b = a).
Proof. unfold Py.max. destruct (Qlt_le_dec a b); auto. Qed.

Lemma min_spec (a b : Q) :
  (b < a /\ Py.min a b = b) \/ (a <= b /\ Py.min a b = a).
Proof. unfold Py.min. destruct (Qlt_le_dec b a); auto. Qed.

(** Case analysis on every [max] and [min] of the goal. *)
Ltac split_minmax :=
  repeat match goal with
         | |- context [Py.max ?a ?b] =>
             let H := fresh "Hmax" in
             destruct (max_spec a b) as [[? H] | [? H]]; rewrite H in *
         | |- context [Py.min ?a ?b] =>
             let H := fresh "Hmin" in
             destruct (min_spec a b) as [[? H] | [? H]]; rewrite H in *
         end.

Lemma gap_exceeded_true c p t :
  gap_exceeded c p t = true -> c * (3 # 2) < t - p.
Proof.
  unfold gap_exceeded.
  destruct (Qlt_le_dec (c * (3 # 2)) (t - p)); [trivial | discriminate].
Qed.

Lemma grid_S c k : grid c (S k) == grid c k + c.
Proof.
  unfold grid. rewrite Nat2Z.inj_succ. unfold Z.succ.
  rewrite inject_Z_plus. ring.
Qed.

Lemma grid_le c j k : 0 <= c -> (j <= k)%nat -> grid c j <= grid c k.
Proof.
  intros Hc Hjk. induction Hjk as [| k _ IH].
  - apply Qle_refl.
  - rewrite grid_S. lra.
Qed.

Lemma grid_nonneg c k : 0 <= c -> 0 <= grid c k.
Proof.
  intros Hc. assert (H := grid_le c 0 k Hc (Nat.le_0_l k)).
  assert (H0 : grid c 0 == 0) by (unfold grid, inject_Z; simpl; ring).
  lra.
Qed.

(** Two window starts further apart than the gap tolerance are at least
    two windows apart. *)
Lemma grid_gap c j k :
  0 < c -> (j < k)%nat -> c * (3 # 2) < grid c k - grid c j ->
  grid c j + c + c <= grid c k.
Proof.
  intros Hc Hjk Hgap.
  destruct (Nat.eq_dec k (S j)) as [-> | Hne].
  - rewrite grid_S in Hgap. lra.
  - assert (Hle : (S (S j) <= k)%nat) by lia.
    apply (grid_le c _ _ (Qlt_le_weak _ _ Hc)) in Hle.
    rewrite !grid_S in Hle. lra.
Qed.

(** ** The loop of lines 75-88 without its accumulator *)

Section BuilderFacts.

Variables (c d : Q).

Lemma clip_loop_acc s p rest clips :
  clip_loop c d s p rest clips = clips ++ clip_loop c d s p rest [].
Proof.
  revert s p clips. induction rest as [| t rest IH]; intros s p clips; simpl.
  - reflexivity.
  - destruct (gap_exceeded c p t).
    + rewrite IH. rewrite (IH t t [padded c d s p]).
      now rewrite <- app_assoc.
    + apply IH.
Qed.

Lemma clip_loop_cons s p t rest :
  clip_loop c d s p (t :: rest) [] =
  if gap_exceeded c p t
  then padded c d s p :: clip_loop c d t t rest []
  else clip_loop c d s t rest [].
Proof.
  simpl. destruct (gap_exceeded c p t); [| reflexivity].
  now rewrite clip_loop_acc.
Qed.

(** The first clip starts at the padded start of the run that is open. *)
Lemma clip_loop_head s p rest :
  exists e tl, clip_loop c d s p rest [] =
               mkSegment (Py.max 0 (s - c)) e :: tl.
Proof.
  revert p. induction rest as [| t rest IH]; intros p.
  - simpl. unfold padded. eauto.
  - rewrite clip_loop_cons. destruct (gap_exceeded c p t).
    + unfold padded. eauto.
    + apply IH.
Qed.

Lemma clip_loop_nonempty s p rest : clip_loop c d s p rest [] <> [].
Proof.
  destruct (clip_loop_head s p rest) as (e & tl & ->). discriminate.
Qed.

Hypothesis c_pos : 0 < c.

Lemma padded_well_formed s p :
  0 <= s -> s <= p -> p < d -> well_formed d (padded c d s p).
Proof.
  intros Hs Hsp Hp. unfold well_formed, padded; simpl.
  split_minmax; repeat split; lra.
Qed.

Lemma padded_covers s p x :
  0 <= x -> x <= d -> s <= x -> x <= p -> covers (padded c d s p) x.
Proof.
  intros. unfold covers, padded; simpl. split_minmax; split; lra.
Qed.

(** Every clip lies inside the media and is not empty. *)
Lemma clip_loop_well_formed rest : forall s p,
  0 <= s -> s <= p -> p < d ->
  Sorted Qle (p :: rest) -> Forall (fun t => t < d) rest ->
  Forall (well_formed d) (clip_loop c d s p rest []).
Proof.
  induction rest as [| t rest IH]; intros s p Hs Hsp Hp Hsort Hin.
  - simpl. constructor; [now apply padded_well_formed | constructor].
  - rewrite clip_loop_cons.
    apply Sorted_inv in Hsort as [Hsort Hhd]. apply HdRel_inv in Hhd.
    apply Forall_cons_iff in Hin as [Ht Hin].
    destruct (gap_exceeded c p t).
    + constructor; [now apply padded_well_formed |].
      apply IH; trivial; lra.
    + apply IH; trivial; lra.
Qed.

(** Every time of the open run and every later time is inside a clip. *)
Lemma clip_loop_covers rest : forall s p x,
  s <= p -> Sorted Qle (p :: rest) -> 0 <= x -> x <= d ->
  (s <= x /\ x <= p) \/ In x rest ->
  Exists (fun clip => covers clip x) (clip_loop c d s p rest []).
Proof.
  induction rest as [| t rest IH]; intros s p x Hsp Hsort Hx0 Hxd Hx.
  - simpl. destruct Hx as [[Hsx Hxp] | []].
    apply Exists_cons_hd. now apply padded_covers.
  - rewrite clip_loop_cons.
    apply Sorted_inv in Hsort as [Hsort Hhd]. apply HdRel_inv in Hhd.
    destruct (gap_exceeded c p t).
    + destruct Hx as [[Hsx Hxp] | [<- | Hx]].
      * apply Exists_cons_hd. now apply padded_covers.
      * apply Exists_cons_tl. apply IH; trivial; try apply Qle_refl.
        left. split; apply Qle_refl.
      * apply Exists_cons_tl. apply IH; trivial; try apply Qle_refl.
        now right.
    + apply IH; trivial; try lra.
      destruct Hx as [[Hsx Hxp] | [<- | Hx]].
      * left. split; lra.
      * left. split; [lra | apply Qle_refl].
      * now right.
Qed.

(** On window starts, a clip ends before the next one starts. *)
Lemma clip_loop_non_overlapping krest : forall s kp,
  Sorted lt (kp :: krest) ->
  Sorted non_overlapping
         (clip_loop c d s (grid c kp) (map (grid c) krest) []).
Proof.
  induction krest as [| kt krest IH]; intros s kp Hsort.
  - simpl. repeat constructor.
  - simpl map. rewrite clip_loop_cons.
    apply Sorted_inv in Hsort as [Hsort Hhd]. apply HdRel_inv in Hhd.
    destruct (gap_exceeded c (grid c kp) (grid c kt)) eqn:Hgap.
    + constructor; [now apply IH |].
      destruct (clip_loop_head (grid c kt) (grid c kt) (map (grid c) krest))
        as (e & tl & ->).
      constructor. unfold non_overlapping, padded; simpl.
      apply gap_exceeded_true in Hgap.
      assert (H2 := grid_gap c kp kt c_pos Hhd Hgap).
      split_minmax; lra.
    + now apply IH.
Qed.

End BuilderFacts.

(** Increasing window indices give sorted window starts below the last. *)
Lemma grid_sorted c ks :
  0 < c -> Sorted lt ks -> Sorted Qle (map (grid c) ks).
Proof.
  intros Hc. induction 1 as [| k ks Hs IH Hhd]; simpl; constructor; trivial.
  destruct Hhd as [| k' ks' Hlt]; simpl; constructor.
  apply grid_le; [lra | lia].
Qed.

(** ** The segment-building step *)

(** C1. For the non-silent start times [0.0, 0.1, 0.2, 0.5, 0.6] with a chunk
    duration of 0.1 and a media duration of 1.0, lines 68-88 produce exactly
    two clips, equal to [0.0, 0.3] and [0.4, 0.7]; the only split is at the
    gap between 0.2 and 0.5, which is 0.3 and exceeds the tolerance
    0.1 * 1.5 = 0.15. *)
Theorem example_two_segments :
  let times := [0; 1 # 10; 2 # 10; 5 # 10; 6 # 10] in
  (exists clips,
      build_clips (1 # 10) 1 times = Some clips /\
      Forall2 seg_eq clips
              [mkSegment 0 (3 # 10); mkSegment (4 # 10) (7 # 10)]) /\
  (5 # 10) - (2 # 10) == 3 # 10 /\
  (1 # 10) * (3 # 2) == 15 # 100 /\
  gap_exceeded (1 # 10) (2 # 10) (5 # 10) = true /\
  gap_exceeded (1 # 10) 0 (1 # 10) = false /\
  gap_exceeded (1 # 10) (1 # 10) (2 # 10) = false /\
  gap_exceeded (1 # 10) (5 # 10) (6 # 10) = false.
Proof.
  cbv zeta. split.
  - eexists. split; [vm_compute; reflexivity |].
    repeat constructor; reflexivity.
  - repeat split; reflexivity.
Qed.







(** C7. For every non-empty sequence of non-silent times each lying in
    [0, duration), in the ascending order in which the detection of lines
    59-63 hands them over, and a positive chunk duration, every clip
    produced by lines 68-88 satisfies [0 <= start < end <= duration]; a run
    whose padded end [prev_time + chunk_duration] reaches or exceeds the
    duration has its end clamped to exactly the duration. *)
Theorem clips_well_formed (c d : Q) (times : list Q) :
  0 < c -> times <> [] -> Sorted Qle times ->
  Forall (fun t => 0 <= t /\ t < d) times ->
  (exists clips,
      build_clips c d times = Some clips /\ Forall (well_formed d) clips) /\
  (forall s p, d <= p + c -> seg_end (padded c d s p) = d).
Proof.
  intros Hc Hne Hsort Hin. split.
  - destruct times as [| t0 rest]; [congruence |].
    simpl. eexists. split; [reflexivity |].
    apply Forall_cons_iff in Hin as [[H0 Hd] Hin].
    apply clip_loop_well_formed; trivial.
    + apply Qle_refl.
    + eapply Forall_impl; [| exact Hin]. simpl. tauto.
  - intros s p Hp. unfold padded; simpl. unfold Py.min.
    destruct (Qlt_le_dec (p + c) d); [lra | reflexivity].
Qed.

Lemma clips_well_formed_witness :
  (exists clips,
      build_clips (1 # 10) 1 [8 # 10; 9 # 10] = Some clips /\
      Forall (well_formed 1) clips) /\
  (forall s p, 1 <= p + (1 # 10) -> seg_end (padded (1 # 10) 1 s p) = 1).
Proof.
  apply (clips_well_formed (1 # 10) 1 [8 # 10; 9 # 10]).
  - reflexivity.
  - discriminate.
  - repeat constructor. discriminate.
  - repeat constructor; discriminate.
Defined.

(** C10. For a positive chunk duration and every non-empty, sorted sequence
    of non-silent start times each in [0, duration), every input time [t] is
    covered by a produced clip: some clip has [start <= t <= end]. *)
Theorem every_time_covered (c d : Q) (times : list Q) :
  0 < c -> times <> [] -> Sorted Qle times ->
  Forall (fun t => 0 <= t /\ t < d) times ->
  exists clips,
    build_clips c d times = Some clips /\
    forall t, In t times -> Exists (fun clip => covers clip t) clips.
Proof.
  intros Hc Hne Hsort Hin. destruct times as [| t0 rest]; [congruence |].
  simpl. eexists. split; [reflexivity |].
  intros t Ht. rewrite Forall_forall in Hin. destruct (Hin t Ht) as [H0 Hd].
  apply clip_loop_covers; trivial; try apply Qle_refl; try lra.
  destruct Ht as [<- | Ht]; [left; split; apply Qle_refl | now right].
Qed.

Lemma every_time_covered_witness :
  exists clips,
    build_clips (1 # 10) 1 [0; 1 # 10; 2 # 10; 5 # 10; 6 # 10] = Some clips /\
    forall t, In t [0; 1 # 10; 2 # 10; 5 # 10; 6 # 10] ->
              Exists (fun clip => covers clip t) clips.
Proof.
  apply (every_time_covered (1 # 10) 1 [0; 1 # 10; 2 # 10; 5 # 10; 6 # 10]).
  - reflexivity.
  - discriminate.
  - repeat constructor; discriminate.
  - repeat constructor; discriminate.
Defined.

(** ** The analysis windows (line 46) *)

Lemma enumerate_map_seq {A : Type} (f : nat -> A) n : forall a,
  combine (seq a (List.length (map f (seq a n)))) (map f (seq a n)) =
  map (fun i => (i, f i)) (seq a n).
Proof.
  induction n as [| n IH]; intros a; simpl; [reflexivity |].
  f_equal. apply IH.
Qed.

Lemma windows_eq self media :
  windows self media =
  map (fun i => (i, grid (chunk_duration self) i))
      (seq 0 (Z.to_nat (Qceiling ((media_duration media - 0)
                                  / chunk_duration self)))).
Proof. unfold windows, Py.enumerate, Py.arange. apply enumerate_map_seq. Qed.

Lemma windows_length self media :
  List.length (windows self media) =
  Z.to_nat (Qceiling (media_duration media / chunk_duration self)).
Proof.
  rewrite windows_eq, length_map, length_seq.
  f_equal. apply Qceiling_comp. unfold Qdiv. ring.
Qed.

Lemma Qceiling_le_floor_succ q : (Qceiling q <= Qfloor q + 1)%Z.
Proof.
  assert (H1 := Qceiling_lt q). assert (H2 := Qlt_floor q).
  assert (H : inject_Z (Qceiling q - 1) < inject_Z (Qfloor q + 1))
    by (eapply Qlt_trans; eassumption).
  rewrite <- Zlt_Qlt in H. lia.
Qed.

Lemma int_nonneg q : 0 <= q -> Py.int q = Qfloor q /\ (0 <= Py.int q)%Z.
Proof.
  intros Hq. unfold Py.int. destruct (Qlt_le_dec q 0); [lra |].
  split; [reflexivity |].
  change 0%Z with (Qfloor (inject_Z 0)). now apply Qfloor_resp_le.
Qed.

Section Windows.

Variables (c d : Q).
Hypothesis c_pos : 0 < c.

Lemma div_mul : d / c * c == d.
Proof. field. intros H. rewrite H in c_pos. discriminate. Qed.

Lemma div_nonneg : 0 <= d -> 0 <= d / c.
Proof.
  intros Hd. apply Qle_shift_div_l; [exact c_pos | lra].
Qed.

Lemma scale_lt (x : Q) : x < d / c -> x * c < d.
Proof.
  intros H. rewrite <- div_mul. now apply Qmult_lt_compat_r.
Qed.

Lemma scale_le (x : Q) : d / c <= x -> d <= x * c.
Proof.
  intros H. rewrite <- div_mul at 1. apply Qmult_le_compat_r; [exact H | lra].
Qed.

Lemma grid_below_ceiling i :
  (Z.of_nat i < Qceiling (d / c))%Z -> grid c i < d.
Proof.
  intros Hi. unfold grid. rewrite Qplus_0_l. apply scale_lt.
  eapply Qle_lt_trans; [| apply Qceiling_lt].
  rewrite <- Zle_Qle. lia.
Qed.

Lemma grid_at_ceiling :
  0 <= d -> d <= grid c (Z.to_nat (Qceiling (d / c))).
Proof.
  intros Hd. unfold grid. rewrite Qplus_0_l. apply scale_le.
  rewrite Z2Nat.id; [apply Qle_ceiling |].
  change 0%Z with (Qceiling (inject_Z 0)).
  apply Qceiling_resp_le. now apply div_nonneg.
Qed.

(** Media shorter than one chunk. *)
Lemma ceiling_short : 0 < d -> d < c -> Qceiling (d / c) = 1%Z.
Proof.
  intros Hd Hdc.
  assert (H0 : 0 < d / c) by (apply Qlt_shift_div_l; [exact c_pos | lra]).
  assert (H1 : d / c < 1) by (apply Qlt_shift_div_r; [exact c_pos | lra]).
  assert (Hlo := Qceiling_lt (d / c)). assert (Hhi := Qle_ceiling (d / c)).
  assert (Ha : inject_Z (Qceiling (d / c) - 1) < inject_Z 1)
    by (eapply Qlt_trans; eassumption).
  assert (Hb : inject_Z 0 < inject_Z (Qceiling (d / c)))
    by (eapply Qlt_le_trans; eassumption).
  rewrite <- Zlt_Qlt in Ha, Hb. lia.
Qed.

Lemma int_short : 0 < d -> d < c -> Py.int (d / c) = 0%Z.
Proof.
  intros Hd Hdc.
  assert (H0 : 0 < d / c) by (apply Qlt_shift_div_l; [exact c_pos | lra]).
  assert (H1 : d / c < 1) by (apply Qlt_shift_div_r; [exact c_pos | lra]).
  destruct (int_nonneg (d / c) (Qlt_le_weak _ _ H0)) as [Hint Hge].
  rewrite Hint in *.
  assert (Hf := Qfloor_le (d / c)).
  assert (Ha : inject_Z (Qfloor (d / c)) < inject_Z 1)
    by (eapply Qle_lt_trans; eassumption).
  rewrite <- Zlt_Qlt in Ha. lia.
Qed.

End Windows.

(** With a duration of 1.05 and a chunk duration of 0.1 the loop of line 46
    visits eleven windows, while [floor(1.05 / 0.1)], the program's
    [chunk_count], is ten: the claim C5 fails when the duration is not a
    multiple of the chunk duration. *)
Lemma eleven_windows_floor_ten :
  let self := init "foo.wav" (4 # 100) (1 # 10) in
  let media := clip (105 # 100) (fun _ => 1) in
  List.length (windows self media) = 11%nat /\
  Qfloor (media_duration media / chunk_duration self) = 10%Z /\
  Py.int (media_duration media / chunk_duration self) = 10%Z /\
  List.length (windows self media)
  <> Z.to_nat (Qfloor (media_duration media / chunk_duration self)).
Proof.
  cbv zeta. repeat split; try reflexivity. vm_compute. discriminate.
Qed.

(** C5, amended. For a positive chunk duration and a duration that is not
    negative, the number of analysis windows is at least
    [floor(duration / chunk_duration)], the program's [chunk_count], and at
    most one more; it is not always the floor (eleven windows against a
    floor of ten above).  There is at least one window as soon as the
    duration is positive, and [chunk_count] is at least 1 as soon as the
    duration reaches one chunk duration.  The windows are numbered from 0,
    the [i]-th starts at [i * chunk_duration], and the end of each is
    clamped to the duration. *)
Theorem window_count (self : SilenceRemover) (media : Media) :
  let c := chunk_duration self in
  let d := media_duration media in
  let chunk_count := Py.int (d / c) in
  0 < c -> 0 <= d ->
  (0 <= chunk_count)%Z /\
  (Z.to_nat chunk_count <= List.length (windows self media))%nat /\
  (List.length (windows self media) <= S (Z.to_nat chunk_count))%nat /\
  (0 < d -> (1 <= List.length (windows self media))%nat) /\
  (c <= d -> (1 <= chunk_count)%Z) /\
  map fst (windows self media)
  = seq 0 (List.length (windows self media)) /\
  Forall (fun w => snd w = grid c (fst w) /\ 0 <= snd w /\
                   Py.min (snd w + c) d <= d)
         (windows self media).
Proof.
  intros c d chunk_count Hc Hd.
  destruct (int_nonneg (d / c) (div_nonneg c d Hc Hd)) as [Hint Hge].
  assert (Hlen := windows_length self media). fold c d in Hlen.
  assert (Hlo := Qle_floor_ceiling (d / c)).
  rewrite <- Zle_Qle in Hlo.
  assert (Hhi := Qceiling_le_floor_succ (d / c)).
  fold chunk_count in Hint, Hge. rewrite <- Hint in Hlo, Hhi.
  split; [exact Hge |].
  split; [rewrite Hlen; lia |]. split; [rewrite Hlen; lia |].
  split; [| split; [| split]].
  - intros Hpos.
    assert (H0 : 0 < d / c) by (apply Qlt_shift_div_l; [exact Hc | lra]).
    assert (H1 := Qle_ceiling (d / c)).
    assert (H2 : inject_Z 0 < inject_Z (Qceiling (d / c)))
      by (eapply Qlt_le_trans; eassumption).
    rewrite <- Zlt_Qlt in H2. rewrite Hlen. lia.
  - intros Hcd.
    assert (H1 : inject_Z 1 <= d / c).
    { change (inject_Z 1) with 1. apply Qle_shift_div_l; [exact Hc | lra]. }
    apply Qfloor_resp_le in H1. rewrite Qfloor_Z in H1.
    fold chunk_count. rewrite Hint. exact H1.
  - rewrite windows_eq, map_map, length_map, length_seq. cbn [fst].
    apply map_id.
  - rewrite windows_eq. apply Forall_map. apply Forall_forall.
    intros i Hi. simpl.
    split; [reflexivity |]. split; [apply grid_nonneg, Qlt_le_weak, Hc |].
    fold c. destruct (min_spec (grid c i + c) d) as [[? ->] | [? ->]];
      [apply Qle_refl | assumption].
Qed.

Lemma window_count_witness :
  let self := init "foo.wav" (4 # 100) (1 # 10) in
  let media := clip (105 # 100) (fun _ => 1) in
  Py.int (media_duration media / chunk_duration self) = 10%Z /\
  List.length (windows self media) = 11%nat /\
  (List.length (windows self media)
   <= S (Z.to_nat (Py.int (media_duration media / chunk_duration self))))%nat.
Proof.
  cbv zeta.
  destruct (window_count (init "foo.wav" (4 # 100) (1 # 10))
                         (clip (105 # 100) (fun _ => 1)))
    as (_ & _ & Hmost & _).
  - reflexivity.
  - discriminate.
  - split; [reflexivity |]. split; [reflexivity | exact Hmost].
Defined.

(** ** Traces of composed computations *)

Lemma bind_emit {B : Type} (e : event) (k : unit -> M B) :
  bind (emit e) k = (e :: fst (k tt), snd (k tt)).
Proof. unfold emit. simpl. now destruct (k tt). Qed.

Lemma bind_Forall {A B : Type} (P : event -> Prop) (m : M A) (k : A -> M B) :
  Forall P (fst m) -> (forall a, Forall P (fst (k a))) ->
  Forall P (fst (bind m k)).
Proof.
  intros Hm Hk. destruct m as [tr [msg | a]]; simpl in *; [exact Hm |].
  specialize (Hk a). destruct (k a) as [tr' r]. simpl in *.
  apply Forall_app. now split.
Qed.

Lemma progress_values_app tr1 tr2 :
  progress_values (tr1 ++ tr2) = progress_values tr1 ++ progress_values tr2.
Proof.
  induction tr1 as [| e tr1 IH]; simpl; [reflexivity |].
  destruct e; simpl; now rewrite ?IH.
Qed.

Lemma quiet_not_terminal tr :
  Forall quiet tr -> Forall (fun e => is_terminal e = false) tr.
Proof.
  intros H. eapply Forall_impl; [| exact H]. intros [] Hq; simpl in *; tauto.
Qed.

Lemma rising_nil lo hi : rising lo hi [].
Proof. split; constructor. Qed.

Lemma rising_cons lo lo' hi v values :
  (lo <= v <= lo')%Z -> (lo' <= hi)%Z -> rising lo' hi values ->
  rising lo hi (v :: values).
Proof.
  intros Hv Hhi [Hs Hb]. split.
  - constructor; [exact Hs |].
    eapply Forall_impl; [| exact Hb]. simpl. lia.
  - constructor; [lia |].
    eapply Forall_impl; [| exact Hb]. simpl. lia.
Qed.

Lemma rising_weaken lo lo' hi hi' values :
  (lo' <= lo)%Z -> (hi <= hi')%Z -> rising lo hi values ->
  rising lo' hi' values.
Proof.
  intros Hlo Hhi [Hs Hb]. split; [exact Hs |].
  eapply Forall_impl; [| exact Hb]. simpl. lia.
Qed.

Lemma rising_app lo mid hi l1 l2 :
  (lo <= mid <= hi)%Z -> rising lo mid l1 -> rising mid hi l2 ->
  rising lo hi (l1 ++ l2).
Proof.
  intros Hb. induction l1 as [| v l1 IH]; intros H1 H2; simpl.
  - eapply rising_weaken; [| | exact H2]; lia.
  - destruct H1 as [Hs Hf]. inversion Hs as [| ? ? Hs' Hle]; subst.
    inversion Hf as [| ? ? Hv Hf']; subst.
    assert (IH' := IH (conj Hs' Hf') H2). split.
    + constructor; [apply IH' |].
      apply Forall_app. split; [exact Hle |].
      destruct H2 as [_ H2]. eapply Forall_impl; [| exact H2]. simpl. lia.
    + constructor; [lia | apply IH'].
Qed.

(** ** Load phase *)

Lemma load_phase_cases self lib :
  (exists msg, load_phase self lib = ([Status "Loading media..."], inl msg)) \/
  (exists media,
      load_phase self lib
      = ([Status "Loading media..."; Opened], inl no_audio_track) /\
      is_audio_only self || has_audio media = false) \/
  (exists media,
      load_phase self lib
      = ([Status "Loading media..."; Opened; Progress 10], inr media) /\
      (if is_audio_only self
       then AudioFileClip lib (input_path self)
       else VideoFileClip lib (input_path self)) = inr media /\
      is_audio_only self || has_audio media = true).
Proof.
  unfold load_phase.
  destruct (if is_audio_only self
            then AudioFileClip lib (input_path self)
            else VideoFileClip lib (input_path self)) as [msg | media] eqn:Ho.
  - left. exists msg. reflexivity.
  - right. destruct (is_audio_only self || has_audio media) eqn:Ha.
    + right. exists media. simpl. rewrite Ha. auto.
    + left. exists media. simpl. rewrite Ha. auto.
Qed.

(** ** Analysis phase *)

Lemma ratio_nonneg n (i : nat) :
  (0 < n)%Z -> 0 <= inject_Z (Z.of_nat i) / inject_Z n * 30.
Proof.
  intros Hn.
  assert (Hn' : 0 < inject_Z n) by (change 0 with (inject_Z 0); now rewrite <- Zlt_Qlt).
  assert (Hi : 0 <= inject_Z (Z.of_nat i))
    by (change 0 with (inject_Z 0); rewrite <- Zle_Qle; lia).
  assert (H : 0 <= inject_Z (Z.of_nat i) / inject_Z n)
    by (apply Qle_shift_div_l; [exact Hn' | lra]).
  lra.
Qed.

Lemma ratio_le n (i j : nat) :
  (0 < n)%Z -> (i <= j)%nat ->
  inject_Z (Z.of_nat i) / inject_Z n * 30
  <= inject_Z (Z.of_nat j) / inject_Z n * 30.
Proof.
  intros Hn Hij.
  assert (Hn' : 0 < inject_Z n) by (change 0 with (inject_Z 0); now rewrite <- Zlt_Qlt).
  assert (Hi : inject_Z (Z.of_nat i) <= inject_Z (Z.of_nat j))
    by (rewrite <- Zle_Qle; lia).
  assert (H : inject_Z (Z.of_nat i) / inject_Z n
              <= inject_Z (Z.of_nat j) / inject_Z n).
  { unfold Qdiv. apply Qmult_le_compat_r; [exact Hi |].
    apply Qlt_le_weak. now apply Qinv_lt_0_compat. }
  lra.
Qed.

Lemma analysis_progress_le n i j :
  (0 < n)%Z -> (i <= j)%nat ->
  (analysis_progress n i <= analysis_progress n j)%Z.
Proof.
  intros Hn Hij. unfold analysis_progress.
  destruct (int_nonneg _ (ratio_nonneg n i Hn)) as [-> _].
  destruct (int_nonneg _ (ratio_nonneg n j Hn)) as [-> _].
  assert (H := Qfloor_resp_le _ _ (ratio_le n i j Hn Hij)). lia.
Qed.

Lemma analysis_progress_bounds n i :
  (0 < n)%Z -> (Z.of_nat i <= n)%Z ->
  (10 <= analysis_progress n i <= 40)%Z.
Proof.
  intros Hn Hi. unfold analysis_progress.
  destruct (int_nonneg _ (ratio_nonneg n i Hn)) as [-> H0].
  split; [lia |].
  assert (Hn' : 0 < inject_Z n) by (change 0 with (inject_Z 0); now rewrite <- Zlt_Qlt).
  assert (H : inject_Z (Z.of_nat i) / inject_Z n <= 1).
  { apply Qle_shift_div_r; [exact Hn' |]. rewrite Qmult_1_l.
    now rewrite <- Zle_Qle. }
  assert (H30 : inject_Z (Z.of_nat i) / inject_Z n * 30 <= inject_Z 30)
    by (change (inject_Z 30) with 30; lra).
  apply Qfloor_resp_le in H30. rewrite Qfloor_Z in H30. lia.
Qed.

Lemma analyze_loop_quiet self media n ws :
  Forall quiet (fst (analyze_loop self media n ws)).
Proof.
  induction ws as [| [i t] ws IH]; [constructor |].
  cbn [analyze_loop]. apply bind_Forall; [repeat constructor |]. intros _.
  apply bind_Forall;
    [destruct (soundarray_rms media _ _); constructor |]. intros chunk.
  apply bind_Forall; [destruct (n =? 0)%Z; constructor |]. intros _.
  apply bind_Forall; [repeat constructor |]. intros _.
  apply bind_Forall; [exact IH |]. intros audio_chunks. constructor.
Qed.

(** One iteration either raises before reporting progress or reports the
    value of line 55 and goes on. *)
Lemma analyze_loop_step self media n i t ws :
  progress_values (fst (analyze_loop self media n ((i, t) :: ws))) = [] \/
  (n <> 0%Z /\
   progress_values (fst (analyze_loop self media n ((i, t) :: ws))) =
   analysis_progress n i :: progress_values (fst (analyze_loop self media n ws))).
Proof.
  cbn [analyze_loop]. rewrite bind_emit. cbn [fst progress_values].
  destruct (soundarray_rms media t _) as [| volume | msg];
    cbn [bind raise ret app fst snd]; auto;
    (destruct (n =? 0)%Z eqn:Hn; cbn [bind raise ret app fst snd emit]; auto;
     right; split; [now apply Z.eqb_neq |];
     destruct (analyze_loop self media n ws) as [tr [msg | chunks]];
     simpl; rewrite ?app_nil_r; reflexivity).
Qed.

Lemma analyze_loop_rising self media n (f : nat -> Q) len : forall a,
  (0 <= n)%Z -> (Z.of_nat (a + len) <= n + 1)%Z ->
  rising (analysis_progress n a) 40
         (progress_values
            (fst (analyze_loop self media n
                               (map (fun i => (i, f i)) (seq a len))))).
Proof.
  induction len as [| len IH]; intros a Hn Hlen; [apply rising_nil |].
  cbn [seq map].
  destruct (analyze_loop_step self media n a (f a)
              (map (fun i => (i, f i)) (seq (S a) len))) as [-> | [Hn0 ->]];
    [apply rising_nil |].
  assert (Hpos : (0 < n)%Z) by lia.
  destruct len as [| len'].
  - apply (rising_cons _ 40); [| lia | apply rising_nil].
    split; [lia |]. apply analysis_progress_bounds; lia.
  - apply (rising_cons _ (analysis_progress n (S a))).
    + split; [lia |]. apply analysis_progress_le; [exact Hpos | lia].
    + apply analysis_progress_bounds; lia.
    + apply IH; lia.
Qed.

Lemma analysis_phase_quiet self media :
  Forall quiet (fst (analysis_phase self media)).
Proof.
  unfold analysis_phase. apply bind_Forall; [repeat constructor |]. intros _.
  apply bind_Forall;
    [destruct (Qeq_dec (chunk_duration self) 0); constructor |].
  intros n. apply analyze_loop_quiet.
Qed.

Lemma analysis_phase_rising self media :
  rising 10 40 (progress_values (fst (analysis_phase self media))).
Proof.
  unfold analysis_phase. rewrite bind_emit. cbn [fst progress_values].
  destruct (Qeq_dec (chunk_duration self) 0) as [Hc | Hc];
    [apply rising_nil |].
  cbn [bind ret].
  set (q := media_duration media / chunk_duration self).
  set (n := Py.int q).
  assert (Hfst : forall ws,
             fst (let (tr', r) := analyze_loop self media n ws in
                  ([] ++ tr', r)) = fst (analyze_loop self media n ws))
    by (intros ws; now destruct (analyze_loop self media n ws)).
  rewrite Hfst, windows_eq.
  assert (Hq : Qceiling ((media_duration media - 0) / chunk_duration self)
               = Qceiling q) by (apply Qceiling_comp; unfold q, Qdiv; ring).
  rewrite Hq.
  destruct (Z_le_gt_dec (Qceiling q) 0) as [Hle | Hgt].
  - replace (Z.to_nat (Qceiling q)) with 0%nat by lia. apply rising_nil.
  - assert (Hqpos : 0 < q).
    { assert (H := Qceiling_lt q).
      eapply Qle_lt_trans; [| exact H].
      change 0 with (inject_Z 0). rewrite <- Zle_Qle. lia. }
    destruct (int_nonneg q (Qlt_le_weak _ _ Hqpos)) as [Hint Hn].
    fold n in Hint, Hn.
    assert (Hcf := Qceiling_le_floor_succ q). rewrite <- Hint in Hcf.
    assert (Hlen : (Z.of_nat (0 + Z.to_nat (Qceiling q)) <= n + 1)%Z) by lia.
    assert (Hr := analyze_loop_rising self media n
                    (grid (chunk_duration self)) _ 0%nat Hn Hlen).
    assert (Hlo : (10 <= analysis_progress n 0)%Z).
    { destruct (Z.eq_dec n 0) as [Hn0 | Hn0].
      - rewrite Hn0. vm_compute. discriminate.
      - apply analysis_progress_bounds; lia. }
    eapply rising_weaken; [exact Hlo | | exact Hr]. lia.
Qed.

(** ** Detection and clip creation *)

Lemma detect_all_silent thr audio_chunks :
  Forall (fun chunk => snd chunk <= thr) audio_chunks ->
  detect thr audio_chunks = [].
Proof.
  induction 1 as [| [t volume] audio_chunks Hle _ IH]; simpl; [reflexivity |].
  destruct (Qlt_le_dec thr volume) as [Hlt | _]; [| exact IH].
  simpl in Hle. lra.
Qed.

Lemma subclips_trace media segments : fst (subclips media segments) = [].
Proof.
  induction segments as [| s segments IH]; simpl; [reflexivity |].
  destruct (subclip_raises media (seg_start s) (seg_end s)); simpl;
    [reflexivity |].
  destruct (subclips media segments) as [tr r]. simpl in *. exact IH.
Qed.

Lemma clips_phase_cases self media audio_chunks :
  fst (clips_phase self media audio_chunks) = clips_trace /\
  (detect (threshold self) audio_chunks = [] ->
   snd (clips_phase self media audio_chunks) = inl no_nonsilent) /\
  (forall clips,
      snd (clips_phase self media audio_chunks) = inr clips ->
      clips <> [] /\
      build_clips (chunk_duration self) (media_duration media)
                  (detect (threshold self) audio_chunks) = Some clips).
Proof.
  unfold clips_phase. rewrite !bind_emit. cbn [fst snd].
  destruct (detect (threshold self) audio_chunks) as [| t0 rest]; simpl.
  - split; [reflexivity |]. split; [reflexivity |].
    intros clips H. discriminate H.
  - assert (Htr := subclips_trace media
                     (clip_loop (chunk_duration self) (media_duration media)
                                t0 t0 rest [])).
    destruct (subclips media _) as [tr [msg | []]]; simpl in *; subst tr;
      (split; [reflexivity |]); (split; [intros H; discriminate H |]);
      intros clips H; [discriminate H |].
    injection H as <-. split; [apply clip_loop_nonempty | reflexivity].
Qed.

(** ** Saving *)

Lemma save_phase_cases self media clips :
  clips <> [] ->
  (exists msg,
      save_phase self media clips
      = ([Progress 70; Status "Combining clips..."], inl msg)) \/
  (exists msg,
      save_phase self media clips
      = ([Progress 70; Status "Combining clips..."; saving_status self],
         inl msg)) \/
  save_phase self media clips = (save_trace self, inr tt).
Proof.
  intros Hne. destruct clips as [| s clips]; [congruence |].
  unfold save_phase, save_trace, saving_status, call.
  destruct (concatenate_raises media (s :: clips)) as [msg |]; simpl.
  - left. now exists msg.
  - right.
    destruct (write_raises media (output_path_of self)) as [msg |]; simpl.
    + left. now exists msg.
    + now right.
Qed.

(** ** The shape of every run *)

(** A run either fails, after events that are all [quiet], or succeeds with
    the trace of the four phases. *)
Lemma run_cases self lib :
  (exists pre msg,
      run self lib = pre ++ [Error msg] /\
      Forall quiet pre /\
      rising 10 100 (progress_values pre)) \/
  (exists media audio_chunks,
      load_phase self lib = (load_trace, inr media) /\
      snd (analysis_phase self media) = inr audio_chunks /\
      run self lib =
      load_trace ++ fst (analysis_phase self media) ++ clips_trace
                 ++ save_trace self).
Proof.
  unfold run, run_body.
  destruct (load_phase_cases self lib)
    as [[msg Hl] | [(media & Hl & _) | (media & Hl & _ & _)]]; rewrite Hl.
  - left. exists [Status "Loading media..."], msg. simpl.
    repeat split; repeat constructor.
  - left. exists [Status "Loading media..."; Opened], no_audio_track. simpl.
    repeat split; repeat constructor.
  - cbn [bind].
    assert (Hq1 := analysis_phase_quiet self media).
    assert (Hr1 := analysis_phase_rising self media).
    destruct (analysis_phase self media) as [tr1 [msg | audio_chunks]] eqn:Ha;
      cbn [bind fst snd] in *.
    + left. exists (load_trace ++ tr1), msg. split; [reflexivity |].
      split; [apply Forall_app; split; [repeat constructor | exact Hq1] |].
      rewrite progress_values_app. simpl.
      apply (rising_cons _ 10); [lia | lia |].
      eapply rising_weaken; [| | exact Hr1]; lia.
    + destruct (clips_phase_cases self media audio_chunks)
        as (Htr2 & _ & Hclips).
      destruct (clips_phase self media audio_chunks) as [tr2 [msg | clips]];
        cbn [bind fst snd] in *; subst tr2.
      * left. exists (load_trace ++ tr1 ++ clips_trace), msg.
        split; [now rewrite <- !app_assoc |].
        split.
        { repeat (apply Forall_app; split); trivial; repeat constructor. }
        rewrite !progress_values_app. simpl.
        apply (rising_cons _ 10); [lia | lia |].
        apply (rising_app _ 40); [lia | exact Hr1 |].
        split; repeat constructor; lia.
      * destruct (Hclips clips eq_refl) as [Hne _].
        destruct (save_phase_cases self media clips Hne)
          as [[msg Hs] | [[msg Hs] | Hs]]; rewrite Hs; cbn [fst snd].
        -- left.
           exists (load_trace ++ tr1 ++ clips_trace
                              ++ [Progress 70; Status "Combining clips..."]),
             msg.
           split; [now rewrite <- !app_assoc |].
           split.
           { repeat (apply Forall_app; split); trivial; repeat constructor. }
           rewrite !progress_values_app. simpl.
           apply (rising_cons _ 10); [lia | lia |].
           apply (rising_app _ 40); [lia | exact Hr1 |].
           split; repeat constructor; lia.
        -- left.
           exists (load_trace ++ tr1 ++ clips_trace
                              ++ [Progress 70; Status "Combining clips...";
                                  saving_status self]),
             msg.
           split; [now rewrite <- !app_assoc |].
           split.
           { repeat (apply Forall_app; split); trivial; repeat constructor. }
           rewrite !progress_values_app. simpl.
           apply (rising_cons _ 10); [lia | lia |].
           apply (rising_app _ 40); [lia | exact Hr1 |].
           split; repeat constructor; lia.
        -- right. exists media, audio_chunks. rewrite Ha.
           split; [reflexivity |]. split; [reflexivity |].
           cbn [fst]. rewrite <- ?app_assoc. reflexivity.
Qed.

Lemma quiet_no_terminal tr : Forall quiet tr -> filter is_terminal tr = [].
Proof.
  induction 1 as [| e tr He _ IH]; simpl; [reflexivity |].
  destruct e; simpl in *; tauto.
Qed.

Lemma quiet_In tr e : Forall quiet tr -> In e tr -> quiet e.
Proof. intros H. rewrite Forall_forall in H. apply H. Qed.

Lemma success_progress self tr :
  progress_values (load_trace ++ tr ++ clips_trace ++ save_trace self)
  = (10 :: progress_values tr ++ [50; 70; 100])%Z.
Proof. rewrite !progress_values_app. reflexivity. Qed.

Lemma success_split self tr :
  load_trace ++ tr ++ clips_trace ++ save_trace self =
  (load_trace ++ tr ++ clips_trace
              ++ [Progress 70; Status "Combining clips..."; saving_status self;
                  Written (output_path_of self); FinalClosed; MediaClosed;
                  Progress 100])
    ++ [Finished (output_path_of self)].
Proof. rewrite <- !app_assoc. reflexivity. Qed.

(** ** The signals of a run *)

(** C8. In every run the progress values emitted are non-decreasing, and
    exactly one terminal signal is emitted, [finished] or [error], as the
    last event of the run: no progress or status follows it.  When the run
    finishes, the progress values are 10, then the values of the analysis,
    which rise within 10 and 40, then 50, 70 and 100. *)
Theorem progress_and_terminal (self : SilenceRemover) (lib : MoviePy) :
  StronglySorted Z.le (progress_values (run self lib)) /\
  (exists pre last,
      run self lib = pre ++ [last] /\
      is_terminal last = true /\
      Forall (fun e => is_terminal e = false) pre) /\
  List.length (filter is_terminal (run self lib)) = 1%nat /\
  (forall p,
      In (Finished p) (run self lib) ->
      exists analysis,
        progress_values (run self lib)
        = (10 :: analysis ++ [50; 70; 100])%Z /\
        rising 10 40 analysis).
Proof.
  destruct (run_cases self lib)
    as [(pre & msg & -> & Hq & Hr) | (media & chunks & _ & _ & ->)].
  - split; [| split; [| split]].
    + rewrite progress_values_app. simpl. rewrite app_nil_r. apply Hr.
    + exists pre, (Error msg).
      split; [reflexivity |]. split; [reflexivity |].
      now apply quiet_not_terminal.
    + rewrite filter_app, (quiet_no_terminal pre Hq). reflexivity.
    + intros p Hin. apply in_app_or in Hin as [Hin | [Hin | []]].
      * destruct (quiet_In _ _ Hq Hin).
      * discriminate Hin.
  - assert (Hq := analysis_phase_quiet self media).
    assert (Hr := analysis_phase_rising self media).
    set (tr := fst (analysis_phase self media)) in *.
    split; [| split; [| split]].
    + rewrite success_progress.
      assert (H : rising 10 100 (10 :: progress_values tr ++ [50; 70; 100])%Z).
      { apply (rising_cons _ 10); [lia | lia |].
        apply (rising_app _ 40); [lia | exact Hr |].
        split; repeat constructor; lia. }
      apply H.
    + rewrite success_split. eexists. eexists.
      split; [reflexivity |]. split; [reflexivity |].
      repeat (apply Forall_app; split);
        try (now apply quiet_not_terminal); repeat constructor.
    + rewrite success_split, !filter_app, (quiet_no_terminal tr Hq).
      reflexivity.
    + intros p _. exists (progress_values tr).
      split; [apply success_progress | exact Hr].
Qed.

Lemma progress_and_terminal_witness :
  let self := init "foo.wav" (4 # 100) (1 # 10) in
  let lib := always (clip (1 # 2) (fun _ => 1)) in
  run self lib =
  [Status "Loading media..."; Opened; Progress 10;
   Status "Analyzing audio...";
   Decoded (0 # 10) (10 # 100); Progress 10;
   Decoded (1 # 10) (20 # 100); Progress 16;
   Decoded (2 # 10) (30 # 100); Progress 22;
   Decoded (3 # 10) (40 # 100); Progress 28;
   Decoded (4 # 10) (50 # 100); Progress 34;
   Status "Detecting silent parts..."; Progress 50;
   Status "Creating clips..."; Progress 70; Status "Combining clips...";
   Status "Saving audio..."; Written "foo_no_silence.wav"; FinalClosed;
   MediaClosed; Progress 100; Finished "foo_no_silence.wav"] /\
  exists analysis,
    progress_values (run self lib) = (10 :: analysis ++ [50; 70; 100])%Z /\
    rising 10 40 analysis.
Proof.
  cbv zeta. split; [vm_compute; reflexivity |].
  destruct (progress_and_terminal
              (init "foo.wav" (4 # 100) (1 # 10))
              (always (clip (1 # 2) (fun _ => 1))))
    as (_ & _ & _ & Hfin).
  apply (Hfin "foo_no_silence.wav"%string).
  vm_compute. do 24 right. left. reflexivity.
Defined.

(** ** Release of the media *)

(** C9 states that [media.close()] runs on every exit path of a run.  The
    program does the opposite on every failure path: a run that emits the
    [error] signal never calls [media.close()], since only the path to
    [finished] (line 123) closes the media.  The all-silent clip of the
    lemma that follows is such a run. *)
Theorem error_leaves_media_open (self : SilenceRemover) (lib : MoviePy)
        (msg : string) :
  In (Error msg) (run self lib) -> ~ In MediaClosed (run self lib).
Proof.
  destruct (run_cases self lib)
    as [(pre & msg' & -> & Hq & _) | (media & chunks & _ & _ & ->)].
  - intros _ Hin. apply in_app_or in Hin as [Hin | [Hin | []]].
    + destruct (quiet_In _ _ Hq Hin).
    + discriminate Hin.
  - intros Hin. exfalso.
    assert (Hq := analysis_phase_quiet self media).
    apply in_app_or in Hin as [Hin | Hin];
      [simpl in Hin; intuition discriminate |].
    apply in_app_or in Hin as [Hin | Hin];
      [destruct (quiet_In _ _ Hq Hin) |].
    simpl in Hin. unfold saving_status in Hin. intuition discriminate.
Qed.

Lemma error_leaves_media_open_witness :
  let self := init "foo.wav" (4 # 100) (1 # 10) in
  let lib := always (clip 1 (fun _ => 0)) in
  In Opened (run self lib) /\
  In (Error no_nonsilent) (run self lib) /\
  ~ In MediaClosed (run self lib).
Proof.
  cbv zeta.
  assert (Herr : In (Error no_nonsilent)
                    (run (init "foo.wav" (4 # 100) (1 # 10))
                         (always (clip 1 (fun _ => 0)))))
    by (vm_compute; do 27 right; left; reflexivity).
  split; [vm_compute; right; left; reflexivity |].
  split; [exact Herr |].
  exact (error_leaves_media_open _ _ _ Herr).
Defined.

(** ** The output path *)

Lemma substring_all s : substring 0 (String.length s) s = s.
Proof. induction s as [| a s IH]; simpl; [reflexivity | now rewrite IH]. Qed.

Lemma slice_app s : forall k,
  (Py.slice_to k s ++ Py.slice_from k s)%string = s.
Proof.
  unfold Py.slice_to, Py.slice_from.
  induction s as [| a s IH]; intros [| k]; simpl; try reflexivity.
  - now rewrite substring_all.
  - now rewrite IH.
Qed.

(** [splitext] cuts the path in two: stem and extension. *)
Lemma splitext_app p :
  (fst (Py.splitext p) ++ snd (Py.splitext p))%string = p.
Proof.
  unfold Py.splitext.
  destruct (Py.rfind p "/" <? Py.rfind p ".")%Z; simpl.
  - destruct (existsb _ _); simpl.
    + apply slice_app.
    + clear. induction p as [| a p IH]; simpl; [reflexivity | now rewrite IH].
  - clear. induction p as [| a p IH]; simpl; [reflexivity | now rewrite IH].
Qed.

(** C6. When a run finishes, the path it reports, which is the path it
    wrote, is the stem of the input path, then [_no_silence], then the
    extension of the input path for an audio-only input and [.mp4] for any
    other input. *)
Theorem finished_output_path (self : SilenceRemover) (lib : MoviePy)
        (p : string) :
  In (Finished p) (run self lib) ->
  p = (fst (Py.splitext (input_path self)) ++ "_no_silence"
       ++ (if is_audio_only self
           then snd (Py.splitext (input_path self))
           else ".mp4"))%string /\
  In (Written p) (run self lib).
Proof.
  destruct (run_cases self lib)
    as [(pre & msg & -> & Hq & _) | (media & chunks & _ & _ & ->)];
    intros Hin.
  - apply in_app_or in Hin as [Hin | [Hin | []]].
    + destruct (quiet_In _ _ Hq Hin).
    + discriminate Hin.
  - assert (Hq := analysis_phase_quiet self media).
    assert (Hp : p = output_path_of self).
    { apply in_app_or in Hin as [Hin | Hin];
        [simpl in Hin; intuition discriminate |].
      apply in_app_or in Hin as [Hin | Hin];
        [destruct (quiet_In _ _ Hq Hin) |].
      simpl in Hin. unfold saving_status in Hin.
      intuition (try discriminate). congruence. }
    split; [exact Hp |]. subst p.
    apply in_or_app. right. apply in_or_app. right.
    apply in_or_app. right. simpl. tauto.
Qed.

Lemma finished_output_path_witness :
  let self := init "foo.wav" (4 # 100) (1 # 10) in
  let lib := always (clip (1 # 2) (fun _ => 1)) in
  is_audio_only self = true /\
  Py.splitext (input_path self) = ("foo", ".wav")%string /\
  "foo_no_silence.wav"%string =
  (fst (Py.splitext (input_path self)) ++ "_no_silence"
   ++ (if is_audio_only self
       then snd (Py.splitext (input_path self))
       else ".mp4"))%string /\
  In (Written "foo_no_silence.wav") (run self lib).
Proof.
  cbv zeta. split; [reflexivity |]. split; [reflexivity |].
  apply (finished_output_path (init "foo.wav" (4 # 100) (1 # 10))
                              (always (clip (1 # 2) (fun _ => 1)))).
  vm_compute. do 24 right. left. reflexivity.
Defined.

(** The two examples of the rule: [foo.wav] and [foo.mov]. *)
Lemma output_path_examples (threshold chunk_duration : Q) :
  output_path_of (init "foo.wav" threshold chunk_duration)
  = "foo_no_silence.wav"%string /\
  output_path_of (init "foo.mov" threshold chunk_duration)
  = "foo_no_silence.mp4"%string /\
  In (Finished "foo_no_silence.mp4")
     (run (init "foo.mov" (4 # 100) (1 # 10))
          (always (clip (1 # 2) (fun _ => 1)))).
Proof.
  split; [reflexivity |]. split; [reflexivity |].
  vm_compute. do 24 right. left. reflexivity.
Qed.

(** ** Silent media *)

(** When the media is opened and the analysis loop completes, and the
    level of every analysed window is at most the threshold (a level equal
    to the threshold is silent), no window is classified as non-silent and
    the run ends with the error signal "No non-silent parts found in the
    media!": nothing is written and [finished] is not emitted. *)
Lemma all_silent_fails (self : SilenceRemover) (lib : MoviePy)
        (media : Media) (tr0 tr1 : list event) (audio_chunks : list (Q * Q)) :
  load_phase self lib = (tr0, inr media) ->
  analysis_phase self media = (tr1, inr audio_chunks) ->
  Forall (fun chunk => snd chunk <= threshold self) audio_chunks ->
  detect (threshold self) audio_chunks = [] /\
  run self lib = tr0 ++ tr1 ++ clips_trace ++ [Error no_nonsilent] /\
  (forall p, ~ In (Written p) (run self lib)) /\
  (forall p, ~ In (Finished p) (run self lib)).
Proof.
  intros Hl Ha Hsilent.
  assert (Hd := detect_all_silent _ _ Hsilent).
  split; [exact Hd |].
  assert (Hrun : run self lib
                 = tr0 ++ tr1 ++ clips_trace ++ [Error no_nonsilent]).
  { unfold run, run_body. rewrite Hl. cbn [bind]. rewrite Ha. cbn [bind].
    destruct (clips_phase_cases self media audio_chunks) as (Htr & Hraise & _).
    specialize (Hraise Hd).
    destruct (clips_phase self media audio_chunks) as [tr2 r].
    cbn [fst snd] in *. subst tr2 r. cbn [bind].
    now rewrite <- !app_assoc. }
  split; [exact Hrun |].
  assert (Hq : Forall quiet (tr0 ++ tr1 ++ clips_trace)).
  { apply Forall_app. split.
    - destruct (load_phase_cases self lib)
        as [[msg Hl'] | [(m & Hl' & _) | (m & Hl' & _)]];
        rewrite Hl' in Hl; inversion Hl; subst. repeat constructor.
    - apply Forall_app. split; [| repeat constructor].
      assert (H := analysis_phase_quiet self media). now rewrite Ha in H. }
  rewrite Hrun.
  split; intros p Hin;
    replace (tr0 ++ tr1 ++ clips_trace ++ [Error no_nonsilent])
      with ((tr0 ++ tr1 ++ clips_trace) ++ [Error no_nonsilent]) in Hin
      by (now rewrite <- !app_assoc);
    (apply in_app_or in Hin as [Hin | [Hin | []]];
     [destruct (quiet_In _ _ Hq Hin) | discriminate Hin]).
Qed.

(** ** Media shorter than one chunk *)

Lemma windows_short self media :
  0 < media_duration media -> media_duration media < chunk_duration self ->
  windows self media = [(0%nat, grid (chunk_duration self) 0)].
Proof.
  intros Hd Hdc. rewrite windows_eq.
  assert (Hc : 0 < chunk_duration self) by lra.
  assert (Hq : Qceiling ((media_duration media - 0) / chunk_duration self)
               = 1%Z).
  { rewrite <- (ceiling_short (chunk_duration self) (media_duration media)
                              Hc Hd Hdc).
    apply Qceiling_comp. unfold Qdiv. ring. }
  rewrite Hq. reflexivity.
Qed.

Lemma end_short c d : 0 < d -> d < c -> Py.min (grid c 0 + c) d = d.
Proof.
  intros Hd Hdc. unfold Py.min.
  destruct (Qlt_le_dec d (grid c 0 + c)) as [_ | Hle]; [reflexivity |].
  assert (H0 : grid c 0 == 0) by (unfold grid, inject_Z; simpl; ring).
  lra.
Qed.

(** A clip of 0.05 s analysed with a chunk duration of 0.1 s: one window,
    [0, 0.05], is decoded, and the run ends with the error "division by
    zero" of line 55, not with "No non-silent parts found in the media!":
    the claim C3 fails. *)
Lemma short_media_one_window_division_by_zero :
  let self := init "foo.wav" (4 # 100) (1 # 10) in
  let lib := always (clip (1 # 20) (fun _ => 0)) in
  0 < 1 # 20 /\ 1 # 20 < chunk_duration self /\
  run self lib =
  [Status "Loading media..."; Opened; Progress 10;
   Status "Analyzing audio..."; Decoded (0 # 10) (1 # 20);
   Error "division by zero"] /\
  List.length (decoded_windows (run self lib)) = 1%nat /\
  ~ In (Error no_nonsilent) (run self lib).
Proof.
  cbv zeta. split; [reflexivity |]. split; [reflexivity |].
  split; [vm_compute; reflexivity |]. split; [reflexivity |].
  vm_compute. intuition discriminate.
Qed.

(** C3, amended. For any media that is opened with an audio track and whose
    duration is positive but strictly less than the chunk duration, the run
    analyses exactly one window: it starts at 0 and its end is clamped to
    the duration. *)
Theorem short_media_one_window (self : SilenceRemover) (lib : MoviePy)
        (media : Media) :
  (if is_audio_only self
   then AudioFileClip lib (input_path self)
   else VideoFileClip lib (input_path self)) = inr media ->
  is_audio_only self || has_audio media = true ->
  0 < media_duration media -> media_duration media < chunk_duration self ->
  windows self media = [(0%nat, grid (chunk_duration self) 0)] /\
  grid (chunk_duration self) 0 == 0 /\
  decoded_windows (run self lib)
  = [(grid (chunk_duration self) 0, media_duration media)].
Proof.
  intros Hopen Haudio Hd Hdc.
  assert (Hc : 0 < chunk_duration self) by lra.
  split; [now apply windows_short |].
  split; [unfold grid, inject_Z; simpl; ring |].
  unfold run, run_body, load_phase. rewrite Hopen.
  cbn [bind emit ret app]. rewrite Haudio. cbn [bind emit ret app].
  unfold analysis_phase. rewrite bind_emit. cbn [fst snd].
  destruct (Qeq_dec (chunk_duration self) 0) as [H0 | _]; [lra |].
  cbn [bind ret app].
  rewrite (int_short _ _ Hc Hd Hdc), (windows_short _ _ Hd Hdc).
  cbn [analyze_loop]. rewrite (end_short _ _ Hd Hdc), bind_emit.
  destruct (soundarray_rms media _ _); reflexivity.
Qed.

Lemma short_media_one_window_witness :
  let self := init "foo.wav" (4 # 100) (1 # 10) in
  let media := clip (1 # 20) (fun _ => 0) in
  windows self media = [(0%nat, grid (1 # 10) 0)] /\
  grid (1 # 10) 0 == 0 /\
  decoded_windows (run self (always media)) = [(grid (1 # 10) 0, 1 # 20)].
Proof.
  cbv zeta.
  apply (short_media_one_window (init "foo.wav" (4 # 100) (1 # 10))
                                (always (clip (1 # 20) (fun _ => 0)))
                                (clip (1 # 20) (fun _ => 0)));
    reflexivity.
Defined.

(** ** Silent media shorter than one chunk *)

(** C4 states that a run whose analysed windows are all at or below the
    threshold ends with the error "No non-silent parts found in the
    media!".  The program does so when the analysis loop completes
    ([all_silent_fails]), but not for media shorter than one chunk: the one
    window [0, duration] is analysed, its level is at most the threshold, so
    that detection would give no time, and the run stops before detection,
    at line 55, where [chunk_count] is 0, with the error "division by
    zero". *)
Theorem silent_short_media_division_by_zero (self : SilenceRemover)
        (lib : MoviePy) (media : Media) (volume : Q) :
  load_phase self lib = (load_trace, inr media) ->
  0 < media_duration media -> media_duration media < chunk_duration self ->
  soundarray_rms media (grid (chunk_duration self) 0) (media_duration media)
  = Level volume ->
  volume <= threshold self ->
  decoded_windows (run self lib)
  = [(grid (chunk_duration self) 0, media_duration media)] /\
  detect (threshold self) [(grid (chunk_duration self) 0, volume)] = [] /\
  run self lib =
  load_trace ++
  [Status "Analyzing audio...";
   Decoded (grid (chunk_duration self) 0) (media_duration media);
   Error division_by_zero] /\
  ~ In (Error no_nonsilent) (run self lib).
Proof.
  intros Hl Hd Hdc Hlevel Hsilent.
  assert (Hc : 0 < chunk_duration self) by lra.
  assert (Hrun : run self lib =
                 load_trace ++
                 [Status "Analyzing audio...";
                  Decoded (grid (chunk_duration self) 0) (media_duration media);
                  Error division_by_zero]).
  { unfold run, run_body. rewrite Hl. cbn [bind].
    unfold analysis_phase. rewrite bind_emit. cbn [fst snd].
    destruct (Qeq_dec (chunk_duration self) 0) as [H0 | _]; [lra |].
    cbn [bind ret app].
    rewrite (int_short _ _ Hc Hd Hdc), (windows_short _ _ Hd Hdc).
    cbn [analyze_loop]. rewrite (end_short _ _ Hd Hdc), bind_emit, Hlevel.
    reflexivity. }
  rewrite Hrun. split; [reflexivity |]. split.
  - simpl. destruct (Qlt_le_dec (threshold self) volume); [lra | reflexivity].
  - split; [reflexivity |]. simpl. intuition discriminate.
Qed.

Lemma silent_short_media_division_by_zero_witness :
  let self := init "foo.wav" (4 # 100) (1 # 10) in
  let lib := always (clip (1 # 20) (fun _ => 0)) in
  decoded_windows (run self lib) = [(grid (1 # 10) 0, 1 # 20)] /\
  detect (4 # 100) [(grid (1 # 10) 0, 0)] = [] /\
  run self lib =
  load_trace ++
  [Status "Analyzing audio..."; Decoded (grid (1 # 10) 0) (1 # 20);
   Error division_by_zero] /\
  ~ In (Error no_nonsilent) (run self lib).
Proof.
  cbv zeta.
  apply (silent_short_media_division_by_zero
           (init "foo.wav" (4 # 100) (1 # 10))
           (always (clip (1 # 20) (fun _ => 0)))
           (clip (1 # 20) (fun _ => 0)) 0).
  - reflexivity.
  - reflexivity.
  - reflexivity.
  - reflexivity.
  - discriminate.
Defined.

(** ** The times handed to the segment-building step in a run *)

(** The chunks collected by the analysis loop start at window starts, in
    increasing order of the window index. *)
Lemma analyze_loop_times self media n len : forall a audio_chunks,
  snd (analyze_loop self media n
         (map (fun i => (i, grid (chunk_duration self) i)) (seq a len)))
  = inr audio_chunks ->
  exists ks,
    map fst audio_chunks = map (grid (chunk_duration self)) ks /\
    StronglySorted lt ks /\
    Forall (fun k => (a <= k < a + len)%nat) ks.
Proof.
  induction len as [| len IH]; intros a audio_chunks Hres.
  - simpl in Hres. injection Hres as <-. exists []. repeat constructor.
  - cbn [seq map analyze_loop] in Hres. rewrite bind_emit in Hres.
    cbn [snd] in Hres.
    destruct (soundarray_rms media _ _) as [| volume | msg];
      cbn [bind raise ret app fst snd] in Hres; try discriminate Hres;
      (destruct (n =? 0)%Z; cbn [bind raise ret emit app fst snd] in Hres;
       [discriminate Hres |];
       specialize (IH (S a));
       destruct (analyze_loop self media n _) as [tr [msg | rest]];
       simpl in Hres; [discriminate Hres |];
       injection Hres as <-;
       destruct (IH rest eq_refl) as (ks & Hmap & Hsort & Hin)).
    + exists ks. split; [exact Hmap |]. split; [exact Hsort |].
      eapply Forall_impl; [| exact Hin]. simpl. lia.
    + exists (a :: ks). split; [simpl; now rewrite Hmap |]. split.
      * constructor; [exact Hsort |].
        eapply Forall_impl; [| exact Hin]. simpl. lia.
      * constructor; [lia |].
        eapply Forall_impl; [| exact Hin]. simpl. lia.
Qed.

(** Detection keeps a sub-sequence of these starts. *)
Lemma detect_times thr c audio_chunks : forall ks (P : nat -> Prop),
  map fst audio_chunks = map (grid c) ks ->
  StronglySorted lt ks -> Forall P ks ->
  exists ks',
    detect thr audio_chunks = map (grid c) ks' /\
    StronglySorted lt ks' /\ Forall P ks' /\
    Forall (fun k' => In k' ks) ks'.
Proof.
  induction audio_chunks as [| [t volume] audio_chunks IH];
    intros ks P Hmap Hsort Hin.
  - exists []. repeat constructor.
  - destruct ks as [| k ks]; [discriminate Hmap |].
    simpl in Hmap. injection Hmap as Ht Hmap.
    inversion Hsort as [| ? ? Hsort' Hlt]; subst.
    inversion Hin as [| ? ? Hk Hin']; subst.
    destruct (IH ks P Hmap Hsort' Hin') as (ks' & Hd & Hs' & Hp' & Hsub).
    simpl. destruct (Qlt_le_dec thr volume).
    + exists (k :: ks'). split; [simpl; now rewrite Hd |].
      split; [| split].
      * constructor; [exact Hs' |].
        rewrite Forall_forall in Hsub, Hlt |- *.
        intros k' Hk'. apply Hlt, Hsub, Hk'.
      * now constructor.
      * constructor; [now left |].
        eapply Forall_impl; [| exact Hsub]. simpl. tauto.
    + exists ks'. split; [exact Hd |]. split; [exact Hs' |].
      split; [exact Hp' |].
      eapply Forall_impl; [| exact Hsub]. simpl. tauto.
Qed.

(** In every run that reaches the segment-building step with a positive
    chunk duration, the non-silent times are increasing window starts below
    the duration, so that the clips handed to [media.subclip] lie inside the
    media and do not overlap. *)
Lemma run_clips_well_formed self media audio_chunks clips :
  0 < chunk_duration self ->
  snd (analysis_phase self media) = inr audio_chunks ->
  build_clips (chunk_duration self) (media_duration media)
              (detect (threshold self) audio_chunks) = Some clips ->
  Forall (well_formed (media_duration media)) clips /\
  Sorted non_overlapping clips.
Proof.
  intros Hc Ha Hb.
  set (c := chunk_duration self) in *. set (d := media_duration media) in *.
  assert (Hks : exists ks,
             detect (threshold self) audio_chunks = map (grid c) ks /\
             StronglySorted lt ks /\ Forall (fun k => grid c k < d) ks).
  { unfold analysis_phase in Ha. rewrite bind_emit in Ha. cbn [snd] in Ha.
    destruct (Qeq_dec (chunk_duration self) 0) as [H0 | _];
      [fold c in H0; lra |].
    cbn [bind ret] in Ha. rewrite windows_eq in Ha.
    destruct (analyze_loop self media _ _) as [tr r] eqn:Hloop.
    cbn [snd] in Ha. subst r.
    assert (Hsnd := f_equal snd Hloop). cbn [snd] in Hsnd.
    apply analyze_loop_times in Hsnd as (ks & Hmap & Hsort & Hin).
    assert (Hbelow : Forall (fun k => grid c k < d) ks).
    { eapply Forall_impl; [| exact Hin]. intros k Hk. simpl in Hk.
      apply grid_below_ceiling; [exact Hc |].
      assert (Heq : Qceiling ((d - 0) / c) = Qceiling (d / c))
        by (apply Qceiling_comp; unfold Qdiv; ring).
      fold c d in Hk. rewrite Heq in Hk. lia. }
    destruct (detect_times (threshold self) c audio_chunks ks _
                           Hmap Hsort Hbelow) as (ks' & Hd & Hs' & Hp' & _).
    exists ks'. auto. }
  destruct Hks as (ks & Hd & Hsort & Hbelow). rewrite Hd in Hb.
  apply StronglySorted_Sorted in Hsort.
  destruct ks as [| k0 ks]; [discriminate Hb |].
  simpl in Hb. injection Hb as <-.
  apply Forall_cons_iff in Hbelow as [Hk0 Hbelow].
  split.
  - apply clip_loop_well_formed; trivial.
    + apply grid_nonneg. lra.
    + apply Qle_refl.
    + change (Sorted Qle (map (grid c) (k0 :: ks))). now apply grid_sorted.
    + now apply Forall_map.
  - now apply clip_loop_non_overlapping.
Qed.

(** * Further properties of the program *)

(** ** More on the segment-building step (lines 68-88) *)

Lemma clip_loop_covers_window c d rest : forall s p x,
  0 < c -> s <= p -> Sorted Qle (p :: rest) -> 0 <= x -> x < d ->
  (s <= x /\ x <= p) \/ In x rest ->
  Exists (fun clip => seg_start clip <= x /\ Py.min (x + c) d <= seg_end clip)
         (clip_loop c d s p rest []).
Proof.
  induction rest as [| t rest IH]; intros s p x Hc Hsp Hsort Hx0 Hxd Hx.
  - simpl. destruct Hx as [[Hsx Hxp] | []].
    apply Exists_cons_hd. unfold padded; simpl. split_minmax; split; lra.
  - rewrite clip_loop_cons.
    apply Sorted_inv in Hsort as [Hsort Hhd]. apply HdRel_inv in Hhd.
    destruct (gap_exceeded c p t).
    + destruct Hx as [[Hsx Hxp] | [<- | Hx]].
      * apply Exists_cons_hd. unfold padded; simpl.
        split_minmax; split; lra.
      * apply Exists_cons_tl. apply IH; trivial; try apply Qle_refl.
        left. split; apply Qle_refl.
      * apply Exists_cons_tl. apply IH; trivial; try apply Qle_refl.
        now right.
    + apply IH; trivial; try lra.
      destruct Hx as [[Hsx Hxp] | [<- | Hx]].
      * left. split; lra.
      * left. split; [lra | apply Qle_refl].
      * now right.
Qed.

(** X1. No non-silent window is cut: for a positive chunk duration and
    sorted non-silent times in [0, duration), the whole analysis window of
    every input time [t], from [t] to [min(t + chunk_duration, duration)],
    lies inside one produced clip. *)
Theorem whole_window_kept (c d : Q) (times : list Q) :
  0 < c -> times <> [] -> Sorted Qle times ->
  Forall (fun t => 0 <= t /\ t < d) times ->
  exists clips,
    build_clips c d times = Some clips /\
    forall t, In t times ->
      Exists (fun clip => seg_start clip <= t /\
                          Py.min (t + c) d <= seg_end clip) clips.
Proof.
  intros Hc Hne Hsort Hin. destruct times as [| t0 rest]; [congruence |].
  simpl. eexists. split; [reflexivity |].
  intros t Ht. rewrite Forall_forall in Hin. destruct (Hin t Ht) as [H0 Hd].
  apply clip_loop_covers_window; trivial; try apply Qle_refl.
  destruct Ht as [<- | Ht]; [left; split; apply Qle_refl | now right].
Qed.

Lemma whole_window_kept_witness :
  exists clips,
    build_clips (1 # 10) 1 [0; 1 # 10; 9 # 10] = Some clips /\
    forall t, In t [0; 1 # 10; 9 # 10] ->
      Exists (fun clip => seg_start clip <= t /\
                          Py.min (t + (1 # 10)) 1 <= seg_end clip) clips.
Proof.
  apply (whole_window_kept (1 # 10) 1 [0; 1 # 10; 9 # 10]).
  - reflexivity.
  - discriminate.
  - repeat constructor; discriminate.
  - repeat constructor; discriminate.
Defined.

Lemma clip_loop_count c d rest : forall s p,
  List.length (clip_loop c d s p rest []) = S (count_splits c p rest).
Proof.
  induction rest as [| t rest IH]; intros s p; [reflexivity |].
  rewrite clip_loop_cons. simpl count_splits.
  destruct (gap_exceeded c p t); simpl; now rewrite IH.
Qed.

(** X2. The number of clips is one more than the number of consecutive
    times that are further apart than 1.5 chunk durations; in particular
    there is at least one clip and at most one clip per non-silent time. *)
Theorem clip_count (c d t0 : Q) (rest : list Q) :
  exists clips,
    build_clips c d (t0 :: rest) = Some clips /\
    List.length clips = S (count_splits c t0 rest) /\
    (1 <= List.length clips <= List.length (t0 :: rest))%nat.
Proof.
  simpl. eexists. split; [reflexivity |].
  rewrite clip_loop_count. split; [reflexivity |].
  assert (H : forall p l, (count_splits c p l <= List.length l)%nat).
  { intros p l. revert p. induction l as [| t l IH]; intros p; simpl; [lia |].
    specialize (IH t). destruct (gap_exceeded c p t); lia. }
  specialize (H t0 rest). lia.
Qed.

Lemma last_cons_default {A : Type} (l : list A) : forall a x y,
  last (a :: l) x = last (a :: l) y.
Proof.
  induction l as [| b l IH]; intros a x y; [reflexivity |].
  change (last (b :: l) x = last (b :: l) y). apply IH.
Qed.

Lemma clip_loop_single c d rest : forall s p,
  Sorted (fun a b => b - a <= c * (3 # 2)) (p :: rest) ->
  clip_loop c d s p rest [] = [padded c d s (last rest p)].
Proof.
  induction rest as [| t rest IH]; intros s p Hsort; [reflexivity |].
  rewrite clip_loop_cons.
  apply Sorted_inv in Hsort as [Hsort Hhd]. apply HdRel_inv in Hhd.
  unfold gap_exceeded.
  destruct (Qlt_le_dec (c * (3 # 2)) (t - p)) as [Hlt | _]; [lra |].
  rewrite (IH s t Hsort). f_equal. f_equal.
  destruct rest as [| q rest]; [reflexivity |].
  change (last (t :: q :: rest) p) with (last (q :: rest) p).
  apply last_cons_default.
Qed.

(** X3. Times whose consecutive differences are all at most 1.5 chunk
    durations (a difference of exactly 1.5 chunk durations included) form
    one run: exactly one clip is produced, from the first time minus one
    chunk duration to the last time plus one chunk duration, clamped to
    [0, duration]. *)
Theorem one_run_one_clip (c d t0 : Q) (rest : list Q) :
  Sorted (fun a b => b - a <= c * (3 # 2)) (t0 :: rest) ->
  build_clips c d (t0 :: rest)
  = Some [mkSegment (Py.max 0 (t0 - c)) (Py.min d (last rest t0 + c))].
Proof.
  intros Hsort. simpl. now rewrite clip_loop_single.
Qed.

Lemma one_run_one_clip_witness :
  build_clips (1 # 10) 1 [0; 15 # 100; 3 # 10]
  = Some [mkSegment (Py.max 0 (0 - (1 # 10)))
                    (Py.min 1 (last [15 # 100; 3 # 10] 0 + (1 # 10)))].
Proof.
  apply (one_run_one_clip (1 # 10) 1 0 [15 # 100; 3 # 10]).
  repeat constructor; discriminate.
Defined.

Lemma total_duration_bound d clips :
  Forall (well_formed d) clips -> Sorted non_overlapping clips ->
  0 <= total_duration clips /\
  match clips with
  | [] => True
  | first :: _ => total_duration clips <= d - seg_start first
  end.
Proof.
  intros Hwf Hsort. induction Hsort as [| a clips Hs IH Hhd]; simpl.
  - split; [apply Qle_refl | exact I].
  - apply Forall_cons_iff in Hwf as [(H0 & Hlt & Hd) Hwf].
    destruct (IH Hwf) as [Hpos Hb].
    split; [lra |].
    destruct Hhd as [| b clips' Hab]; simpl in *; [lra |].
    unfold non_overlapping in Hab. lra.
Qed.

(** X4. The output is not longer than the input: in a run with a positive
    chunk duration whose analysis completed and whose clips were created,
    the summed duration of the clips is positive and at most the duration of
    the media. *)
Theorem output_not_longer (self : SilenceRemover) (media : Media)
        (audio_chunks : list (Q * Q)) (clips : list Segment) :
  0 < chunk_duration self ->
  snd (analysis_phase self media) = inr audio_chunks ->
  snd (clips_phase self media audio_chunks) = inr clips ->
  0 < total_duration clips /\ total_duration clips <= media_duration media.
Proof.
  intros Hc Ha Hclips.
  destruct (clips_phase_cases self media audio_chunks) as (_ & _ & Hb).
  destruct (Hb clips Hclips) as [Hne Hbuild].
  destruct (run_clips_well_formed self media audio_chunks clips Hc Ha Hbuild)
    as [Hwf Hsort].
  destruct (total_duration_bound _ _ Hwf Hsort) as [_ Hbound].
  destruct clips as [| first clips]; [congruence |].
  assert (Hwf' := Hwf).
  apply Forall_cons_iff in Hwf' as [(H0 & Hlt & _) Hrest].
  apply Sorted_inv in Hsort as [Hsort _].
  destruct (total_duration_bound _ _ Hrest Hsort) as [Hpos _].
  simpl in *. split; lra.
Qed.

Lemma output_not_longer_witness :
  let self := init "foo.wav" (4 # 100) (1 # 10) in
  let media := clip (1 # 2) (fun t => if Qlt_le_dec t (2 # 10) then 1 else 0) in
  exists clips,
    snd (clips_phase self media
           [(grid (1 # 10) 0, 1); (grid (1 # 10) 1, 1); (grid (1 # 10) 2, 0);
            (grid (1 # 10) 3, 0); (grid (1 # 10) 4, 0)]) = inr clips /\
    0 < total_duration clips /\ total_duration clips <= 1 # 2.
Proof.
  cbv zeta. eexists. split; [vm_compute; reflexivity |].
  apply (output_not_longer
           (init "foo.wav" (4 # 100) (1 # 10))
           (clip (1 # 2) (fun t => if Qlt_le_dec t (2 # 10) then 1 else 0))
           [(grid (1 # 10) 0, 1); (grid (1 # 10) 1, 1); (grid (1 # 10) 2, 0);
            (grid (1 # 10) 3, 0); (grid (1 # 10) 4, 0)]).
  - reflexivity.
  - vm_compute. reflexivity.
  - vm_compute. reflexivity.
Defined.

(** ** More on the analysis (lines 44-56) *)

Lemma Sorted_map_seq {A : Type} (R : A -> A -> Prop) (f : nat -> A) n :
  forall a,
    (forall i, (a <= i)%nat -> (S i < a + n)%nat -> R (f i) (f (S i))) ->
    Sorted R (map f (seq a n)).
Proof.
  induction n as [| n IH]; intros a H; simpl; [constructor |].
  constructor.
  - apply IH. intros i Hi Hlt. apply H; lia.
  - destruct n as [| n]; simpl; constructor. apply H; lia.
Qed.

Lemma last_map_seq {A : Type} (f : nat -> A) n : forall a x,
  last (map f (seq a (S n))) x = f (a + n)%nat.
Proof.
  induction n as [| n IH]; intros a x.
  - simpl. f_equal. lia.
  - change (last (map f (seq (S a) (S n))) x = f (a + S n)%nat).
    rewrite IH. f_equal. lia.
Qed.

Lemma last_cons_self {A : Type} (l : list A) (a x : A) :
  last (a :: l) x = last l a.
Proof.
  destruct l as [| b l]; [reflexivity |].
  change (last (b :: l) x = last (b :: l) a). apply last_cons_default.
Qed.

(** X5. The analysis windows tile the media: for a positive chunk duration
    and a positive duration there is at least one window, the first window
    starts at 0, the end of each window (clamped by line 47) is the start of
    the next one, and the last window ends at the duration. *)
Theorem windows_tile (self : SilenceRemover) (media : Media) :
  0 < chunk_duration self -> 0 < media_duration media ->
  exists t0 rest,
    map snd (windows self media) = t0 :: rest /\
    t0 == 0 /\
    Sorted (fun t t' => snd (window_of self media t) == t') (t0 :: rest) /\
    snd (window_of self media (last rest t0)) == media_duration media.
Proof.
  intros Hc Hd.
  set (c := chunk_duration self) in *. set (d := media_duration media) in *.
  assert (Hq : Qceiling ((d - 0) / c) = Qceiling (d / c))
    by (apply Qceiling_comp; unfold Qdiv; ring).
  assert (Hpos : (0 < Qceiling (d / c))%Z).
  { assert (H0 : 0 < d / c) by (apply Qlt_shift_div_l; [exact Hc | lra]).
    assert (H1 := Qle_ceiling (d / c)).
    assert (H2 : inject_Z 0 < inject_Z (Qceiling (d / c)))
      by (eapply Qlt_le_trans; eassumption).
    now rewrite <- Zlt_Qlt in H2. }
  assert (Hws : map snd (windows self media)
                = map (grid c) (seq 0 (Z.to_nat (Qceiling (d / c))))).
  { rewrite windows_eq, map_map. fold c d. rewrite Hq. reflexivity. }
  destruct (Z.to_nat (Qceiling (d / c))) as [| n] eqn:Hn; [lia |].
  assert (Htop := grid_at_ceiling c d Hc (Qlt_le_weak _ _ Hd)).
  rewrite Hn in Htop.
  assert (Hbelow : forall i, (i <= n)%nat -> grid c i < d).
  { intros i Hi. apply grid_below_ceiling; [exact Hc | lia]. }
  exists (grid c 0), (map (grid c) (seq 1 n)).
  split; [exact Hws |].
  split; [unfold grid, inject_Z; simpl; ring |].
  split.
  - change (grid c 0 :: map (grid c) (seq 1 n))
      with (map (grid c) (seq 0 (S n))).
    apply Sorted_map_seq. intros i _ Hi. unfold window_of. cbn [snd].
    fold c d. assert (Hs := grid_S c i).
    assert (Hlt : grid c (S i) < d) by (apply Hbelow; lia).
    unfold Py.min. destruct (Qlt_le_dec d (grid c i + c)); [lra |].
    now symmetry.
  - rewrite <- (last_cons_self _ _ (grid c 0)).
    change (grid c 0 :: map (grid c) (seq 1 n))
      with (map (grid c) (seq 0 (S n))).
    rewrite last_map_seq. simpl Nat.add.
    unfold window_of. cbn [snd]. fold c d.
    assert (Hs := grid_S c n).
    unfold Py.min. destruct (Qlt_le_dec d (grid c n + c));
      [apply Qeq_refl | lra].
Qed.

Lemma windows_tile_witness :
  let self := init "foo.wav" (4 # 100) (1 # 10) in
  let media := clip (25 # 100) (fun _ => 1) in
  exists t0 rest,
    map snd (windows self media) = t0 :: rest /\
    t0 == 0 /\
    Sorted (fun t t' => snd (window_of self media t) == t') (t0 :: rest) /\
    snd (window_of self media (last rest t0)) == 25 # 100.
Proof.
  cbv zeta.
  apply (windows_tile (init "foo.wav" (4 # 100) (1 # 10))
                      (clip (25 # 100) (fun _ => 1))); reflexivity.
Defined.

Lemma analyze_loop_complete self media n ws : forall audio_chunks,
  snd (analyze_loop self media n ws) = inr audio_chunks ->
  decoded_windows (fst (analyze_loop self media n ws))
  = map (fun w => window_of self media (snd w)) ws /\
  audio_chunks = flat_map (fun w => chunk_of self media (snd w)) ws /\
  (ws = [] \/ n <> 0%Z).
Proof.
  induction ws as [| [i t] ws IH]; intros audio_chunks Hres.
  - simpl in Hres. injection Hres as <-. simpl. auto.
  - cbn [analyze_loop] in *. rewrite bind_emit in *.
    cbn [fst snd map flat_map decoded_windows] in *.
    unfold chunk_of, window_of at 2. cbn [snd].
    destruct (soundarray_rms media t _) as [| volume | msg];
      cbn [bind raise ret app fst snd] in *; try discriminate Hres;
      (destruct (n =? 0)%Z eqn:Hn;
       cbn [bind raise ret emit app fst snd] in *;
       [discriminate Hres |];
       destruct (analyze_loop self media n ws) as [tr [msg | rest]];
       simpl in Hres; [discriminate Hres |];
       injection Hres as <-;
       destruct (IH rest eq_refl) as (Hdec & Hchunks & _);
       simpl in *; rewrite ?app_nil_r;
       split; [unfold window_of; cbn [snd]; now rewrite Hdec |];
       split; [now rewrite Hchunks |];
       right; now apply Z.eqb_neq).
Qed.

(** X6. When the analysis completes, it has decoded every window of line 46
    exactly once and in order, each from its start to its clamped end, and
    [audio_chunks] holds, in the same order, the start and the level of each
    window that gave samples (a window without audio is left out). *)
Theorem analysis_decodes_each_window (self : SilenceRemover) (media : Media)
        (audio_chunks : list (Q * Q)) :
  snd (analysis_phase self media) = inr audio_chunks ->
  decoded_windows (fst (analysis_phase self media))
  = map (fun w => window_of self media (snd w)) (windows self media) /\
  audio_chunks
  = flat_map (fun w => chunk_of self media (snd w)) (windows self media).
Proof.
  unfold analysis_phase. rewrite bind_emit. cbn [fst snd decoded_windows].
  destruct (Qeq_dec (chunk_duration self) 0); [discriminate |].
  cbn [bind ret].
  destruct (analyze_loop self media _ (windows self media)) as [tr r] eqn:Hl.
  cbn [fst snd app]. intros ->.
  assert (Hsnd := f_equal snd Hl). cbn [snd] in Hsnd.
  destruct (analyze_loop_complete _ _ _ _ _ Hsnd) as (Hdec & Hchunks & _).
  rewrite Hl in Hdec. cbn [fst] in Hdec. now split.
Qed.

Lemma analysis_decodes_each_window_witness :
  let self := init "foo.wav" (4 # 100) (1 # 10) in
  let media := clip (25 # 100) (fun _ => 1) in
  decoded_windows (fst (analysis_phase self media))
  = map (fun w => window_of self media (snd w)) (windows self media) /\
  [(grid (1 # 10) 0, 1); (grid (1 # 10) 1, 1); (grid (1 # 10) 2, 1)]
  = flat_map (fun w => chunk_of self media (snd w)) (windows self media).
Proof.
  cbv zeta.
  apply (analysis_decodes_each_window
           (init "foo.wav" (4 # 100) (1 # 10))
           (clip (25 # 100) (fun _ => 1))).
  vm_compute. reflexivity.
Defined.

(** ** Runs that stop early *)

Lemma load_phase_ok self lib media :
  (if is_audio_only self
   then AudioFileClip lib (input_path self)
   else VideoFileClip lib (input_path self)) = inr media ->
  is_audio_only self || has_audio media = true ->
  load_phase self lib = (load_trace, inr media).
Proof.
  intros Hopen Haudio. unfold load_phase. rewrite Hopen.
  cbn [bind emit ret app]. rewrite Haudio. reflexivity.
Qed.

Lemma run_after_load self lib media :
  load_phase self lib = (load_trace, inr media) ->
  run self lib =
  load_trace ++
  match (audio_chunks <- analysis_phase self media ;;
         clips <- clips_phase self media audio_chunks ;;
         save_phase self media clips) with
  | (tr, inl msg) => tr ++ [Error msg]
  | (tr, inr _) => tr
  end.
Proof.
  intros Hl. unfold run, run_body. rewrite Hl. cbn [bind].
  destruct (bind (analysis_phase self media) _) as [tr [msg | u]].
  - now rewrite <- app_assoc.
  - reflexivity.
Qed.

(** X7. Failures before the analysis.  When the MoviePy constructor raises,
    the run emits the loading status and then the error signal with the
    message of the exception, and nothing else.  When a video opens but has
    no audio track, the run emits the loading status and the error "No
    audio track found in the file!"; no progress is reported in either
    case.  An audio-only input never fails in this second way. *)
Theorem failures_before_analysis (self : SilenceRemover) (lib : MoviePy) :
  (forall msg,
      (if is_audio_only self
       then AudioFileClip lib (input_path self)
       else VideoFileClip lib (input_path self)) = inl msg ->
      run self lib = [Status "Loading media..."; Error msg]) /\
  (forall media,
      VideoFileClip lib (input_path self) = inr media ->
      is_audio_only self = false -> has_audio media = false ->
      run self lib
      = [Status "Loading media..."; Opened; Error no_audio_track]) /\
  (forall media,
      AudioFileClip lib (input_path self) = inr media ->
      is_audio_only self = true ->
      load_phase self lib = (load_trace, inr media)).
Proof.
  split; [| split].
  - intros msg Hopen. unfold run, run_body, load_phase. rewrite Hopen.
    reflexivity.
  - intros media Hopen Hvideo Haudio. unfold run, run_body, load_phase.
    rewrite Hvideo, Hopen. cbn [bind emit ret app]. rewrite Haudio.
    reflexivity.
  - intros media Hopen Haudio. apply load_phase_ok; rewrite Haudio; trivial.
Qed.

Lemma failures_before_analysis_witness :
  run (init "foo.mov" (4 # 100) (1 # 10))
      (mkMoviePy (fun _ => inl "unused"%string)
                 (fun _ => inl "file not found"%string))
  = [Status "Loading media..."; Error "file not found"] /\
  run (init "foo.mov" (4 # 100) (1 # 10))
      (always (mkMedia 1 false (fun _ _ => NoChunk) (fun _ _ => None)
                       (fun _ => None) (fun _ => None)))
  = [Status "Loading media..."; Opened; Error no_audio_track].
Proof.
  split.
  - destruct (failures_before_analysis
                (init "foo.mov" (4 # 100) (1 # 10))
                (mkMoviePy (fun _ => inl "unused"%string)
                           (fun _ => inl "file not found"%string)))
      as (Hraise & _ & _).
    apply Hraise. reflexivity.
  - destruct (failures_before_analysis
                (init "foo.mov" (4 # 100) (1 # 10))
                (always (mkMedia 1 false (fun _ _ => NoChunk)
                                 (fun _ _ => None) (fun _ => None)
                                 (fun _ => None))))
      as (_ & Hnone & _).
    eapply Hnone; reflexivity.
Defined.

Lemma windows_none self media :
  (0 < chunk_duration self /\ media_duration media <= 0) \/
  (chunk_duration self < 0 /\ 0 <= media_duration media) ->
  windows self media = [].
Proof.
  intros H. rewrite windows_eq.
  set (c := chunk_duration self) in *. set (d := media_duration media) in *.
  assert (Hq : (d - 0) / c <= inject_Z 0).
  { change (inject_Z 0) with 0. unfold Qdiv.
    destruct H as [[Hc Hd] | [Hc Hd]].
    - assert (Hi : 0 < / c) by now apply Qinv_lt_0_compat.
      assert (H1 : (d - 0) * / c <= 0 * / c)
        by (apply Qmult_le_compat_r; lra).
      lra.
    - assert (Hi : 0 < / - c) by (apply Qinv_lt_0_compat; lra).
      assert (He : / c == - / - c)
        by (field; intros He; rewrite He in Hc; discriminate).
      assert (H1 : 0 * / - c <= (d - 0) * / - c)
        by (apply Qmult_le_compat_r; lra).
      rewrite He. lra. }
  apply Qceiling_resp_le in Hq. rewrite Qceiling_Z in Hq.
  replace (Z.to_nat (Qceiling ((d - 0) / c))) with 0%nat by lia.
  reflexivity.
Qed.

(** X8. Media without duration.  When the media opens with an audio track
    and either its duration is not positive (for a positive chunk duration)
    or the chunk duration is negative, no window is decoded and the run ends
    with the error "No non-silent parts found in the media!". *)
Theorem empty_media_fails (self : SilenceRemover) (lib : MoviePy)
        (media : Media) :
  load_phase self lib = (load_trace, inr media) ->
  (0 < chunk_duration self /\ media_duration media <= 0) \/
  (chunk_duration self < 0 /\ 0 <= media_duration media) ->
  run self lib =
  load_trace ++ [Status "Analyzing audio..."] ++ clips_trace
             ++ [Error no_nonsilent].
Proof.
  intros Hl H. rewrite (run_after_load _ _ _ Hl). f_equal.
  unfold analysis_phase. rewrite (windows_none _ _ H).
  destruct (Qeq_dec (chunk_duration self) 0) as [H0 | _]; [lra |].
  reflexivity.
Qed.

Lemma empty_media_fails_witness :
  run (init "foo.wav" (4 # 100) (1 # 10)) (always (clip 0 (fun _ => 1)))
  = load_trace ++ [Status "Analyzing audio..."] ++ clips_trace
               ++ [Error no_nonsilent].
Proof.
  apply (empty_media_fails (init "foo.wav" (4 # 100) (1 # 10))
                           (always (clip 0 (fun _ => 1)))
                           (clip 0 (fun _ => 1))).
  - reflexivity.
  - left. split; [reflexivity | discriminate].
Defined.

(** X9. A chunk duration of zero.  When the media opens with an audio
    track and the chunk duration is 0, the run stops at the division of
    line 45: it decodes nothing and ends with the error "float division by
    zero". *)
Theorem zero_chunk_duration_fails (self : SilenceRemover) (lib : MoviePy)
        (media : Media) :
  load_phase self lib = (load_trace, inr media) ->
  chunk_duration self == 0 ->
  run self lib =
  load_trace ++ [Status "Analyzing audio..."; Error float_division_by_zero].
Proof.
  intros Hl Hc. rewrite (run_after_load _ _ _ Hl). f_equal.
  unfold analysis_phase.
  destruct (Qeq_dec (chunk_duration self) 0) as [_ | Hne]; [| contradiction].
  reflexivity.
Qed.

Lemma zero_chunk_duration_fails_witness :
  run (init "foo.wav" (4 # 100) 0) (always (clip 1 (fun _ => 1)))
  = load_trace ++ [Status "Analyzing audio..."; Error float_division_by_zero].
Proof.
  apply (zero_chunk_duration_fails (init "foo.wav" (4 # 100) 0)
                                   (always (clip 1 (fun _ => 1)))
                                   (clip 1 (fun _ => 1))); reflexivity.
Defined.

(** X10. Media shorter than one chunk never finish.  When the media opens
    with an audio track and its duration is positive but smaller than the
    chunk duration, the run decodes the single window [0, duration] and then
    ends with an error: the message of the decoder when decoding raises, and
    "division by zero" (line 55, [chunk_count] being 0) otherwise, whatever
    the level of the window. *)
Theorem short_media_fails (self : SilenceRemover) (lib : MoviePy)
        (media : Media) :
  load_phase self lib = (load_trace, inr media) ->
  0 < media_duration media -> media_duration media < chunk_duration self ->
  run self lib =
  load_trace ++
  [Status "Analyzing audio...";
   Decoded (grid (chunk_duration self) 0) (media_duration media);
   Error (match soundarray_rms media (grid (chunk_duration self) 0)
                               (media_duration media) with
          | DecodeRaises msg => msg
          | _ => division_by_zero
          end)].
Proof.
  intros Hl Hd Hdc. rewrite (run_after_load _ _ _ Hl). f_equal.
  assert (Hc : 0 < chunk_duration self) by lra.
  unfold analysis_phase. rewrite bind_emit. cbn [fst snd].
  destruct (Qeq_dec (chunk_duration self) 0) as [H0 | _]; [lra |].
  cbn [bind ret app].
  rewrite (int_short _ _ Hc Hd Hdc), (windows_short _ _ Hd Hdc).
  cbn [analyze_loop]. rewrite (end_short _ _ Hd Hdc), bind_emit.
  destruct (soundarray_rms media _ _); reflexivity.
Qed.

Lemma short_media_fails_witness :
  run (init "foo.wav" (4 # 100) (1 # 10)) (always (clip (1 # 20) (fun _ => 1)))
  = load_trace ++
    [Status "Analyzing audio..."; Decoded (grid (1 # 10) 0) (1 # 20);
     Error division_by_zero].
Proof.
  apply (short_media_fails (init "foo.wav" (4 # 100) (1 # 10))
                           (always (clip (1 # 20) (fun _ => 1)))
                           (clip (1 # 20) (fun _ => 1))); reflexivity.
Defined.

(** ** Writing and closing *)

(** X11. A run that completes the write of a file reports that very path
    with [finished], after closing the concatenated clip and the media;
    conversely a run that ends with [error] has completed no write. *)
Theorem written_then_closed_and_finished (self : SilenceRemover)
        (lib : MoviePy) (p : string) :
  In (Written p) (run self lib) ->
  p = output_path_of self /\
  (exists pre,
      run self lib =
      pre ++ [Written p; FinalClosed; MediaClosed; Progress 100; Finished p]) /\
  forall msg, ~ In (Error msg) (run self lib).
Proof.
  destruct (run_cases self lib)
    as [(pre & msg & -> & Hq & _) | (media & chunks & _ & _ & ->)];
    intros Hin.
  - apply in_app_or in Hin as [Hin | [Hin | []]].
    + destruct (quiet_In _ _ Hq Hin).
    + discriminate Hin.
  - assert (Hq := analysis_phase_quiet self media).
    assert (Hp : p = output_path_of self).
    { apply in_app_or in Hin as [Hin | Hin];
        [simpl in Hin; intuition discriminate |].
      apply in_app_or in Hin as [Hin | Hin];
        [destruct (quiet_In _ _ Hq Hin) |].
      simpl in Hin. unfold saving_status in Hin.
      intuition (try discriminate). congruence. }
    subst p. split; [reflexivity |]. split.
    + exists (load_trace ++ fst (analysis_phase self media) ++ clips_trace
                         ++ [Progress 70; Status "Combining clips...";
                             saving_status self]).
      rewrite <- !app_assoc. reflexivity.
    + intros msg Herr.
      apply in_app_or in Herr as [Herr | Herr];
        [simpl in Herr; intuition discriminate |].
      apply in_app_or in Herr as [Herr | Herr];
        [destruct (quiet_In _ _ Hq Herr) |].
      simpl in Herr. unfold saving_status in Herr. intuition discriminate.
Qed.

Lemma written_then_closed_and_finished_witness :
  let self := init "foo.mov" (4 # 100) (1 # 10) in
  let lib := always (clip (1 # 2) (fun _ => 1)) in
  "foo_no_silence.mp4"%string = output_path_of self /\
  (exists pre,
      run self lib =
      pre ++ [Written "foo_no_silence.mp4"; FinalClosed; MediaClosed;
              Progress 100; Finished "foo_no_silence.mp4"]) /\
  forall msg, ~ In (Error msg) (run self lib).
Proof.
  cbv zeta.
  apply (written_then_closed_and_finished
           (init "foo.mov" (4 # 100) (1 # 10))
           (always (clip (1 # 2) (fun _ => 1)))).
  vm_compute. do 20 right. left. reflexivity.
Defined.

(** ** Runs that finish *)

Lemma analysis_phase_loop self media :
  ~ chunk_duration self == 0 ->
  analysis_phase self media =
  (Status "Analyzing audio..."
     :: fst (analyze_loop self media
               (Py.int (media_duration media / chunk_duration self))
               (windows self media)),
   snd (analyze_loop self media
          (Py.int (media_duration media / chunk_duration self))
          (windows self media))).
Proof.
  intros Hc. unfold analysis_phase. rewrite bind_emit. cbn [fst snd].
  destruct (Qeq_dec (chunk_duration self) 0) as [H0 | _]; [contradiction |].
  cbn [bind ret]. now destruct (analyze_loop self media _ _).
Qed.

Lemma analyze_loop_succeeds self media n ws :
  n <> 0%Z ->
  (forall t end_t msg, soundarray_rms media t end_t <> DecodeRaises msg) ->
  exists audio_chunks, snd (analyze_loop self media n ws) = inr audio_chunks.
Proof.
  intros Hn Hok. apply Z.eqb_neq in Hn.
  induction ws as [| [i t] ws [rest IH]]; [now exists [] |].
  cbn [analyze_loop]. rewrite bind_emit. cbn [snd]. rewrite Hn.
  destruct (soundarray_rms media t _) as [| volume | msg] eqn:Hdec;
    [| | now apply Hok in Hdec];
    cbn [bind raise ret emit app fst snd];
    destruct (analyze_loop self media n ws) as [tr r]; cbn [snd] in IH;
    subst r; simpl; eauto.
Qed.

Lemma detect_In thr audio_chunks t :
  In t (detect thr audio_chunks) <->
  exists volume, In (t, volume) audio_chunks /\ thr < volume.
Proof.
  induction audio_chunks as [| [t' v'] audio_chunks IH]; simpl.
  - split; [tauto | intros (v & [] & _)].
  - destruct (Qlt_le_dec thr v') as [Hlt | Hle]; simpl; rewrite IH; split.
    + intros [<- | (v & Hin & Hv)]; [exists v'; auto | exists v; auto].
    + intros (v & [Heq | Hin] & Hv).
      * injection Heq as <- <-. now left.
      * right. now exists v.
    + intros (v & Hin & Hv). exists v. auto.
    + intros (v & [Heq | Hin] & Hv).
      * injection Heq as <- <-. lra.
      * now exists v.
Qed.

Lemma subclips_ok media segments :
  (forall a b, subclip_raises media a b = None) ->
  subclips media segments = ([], inr tt).
Proof.
  intros Hok. induction segments as [| s segments IH]; [reflexivity |].
  simpl. rewrite Hok, IH. reflexivity.
Qed.

Lemma int_at_least_one c d : 0 < c -> c <= d -> (1 <= Py.int (d / c))%Z.
Proof.
  intros Hc Hcd.
  assert (H1 : inject_Z 1 <= d / c).
  { change (inject_Z 1) with 1. apply Qle_shift_div_l; [exact Hc | lra]. }
  assert (H0 : 0 <= d / c) by (change (inject_Z 1) with 1 in H1; lra).
  destruct (int_nonneg _ H0) as [-> _].
  apply Qfloor_resp_le in H1. now rewrite Qfloor_Z in H1.
Qed.

(** X12. When does a run finish?  When the media opens with an audio track,
    the media lasts at least one (positive) chunk duration, no decoding
    raises, some window is louder than the threshold, and neither the
    cutting, the concatenation nor the writing raises, the run goes through
    its four phases and emits [finished] with the output path. *)
Theorem run_finishes (self : SilenceRemover) (lib : MoviePy) (media : Media) :
  load_phase self lib = (load_trace, inr media) ->
  0 < chunk_duration self -> chunk_duration self <= media_duration media ->
  (forall t end_t msg, soundarray_rms media t end_t <> DecodeRaises msg) ->
  (exists w volume,
      In w (windows self media) /\
      soundarray_rms media (snd w) (snd (window_of self media (snd w)))
      = Level volume /\
      threshold self < volume) ->
  (forall a b, subclip_raises media a b = None) ->
  (forall clips, concatenate_raises media clips = None) ->
  write_raises media (output_path_of self) = None ->
  run self lib =
  load_trace ++ fst (analysis_phase self media) ++ clips_trace
             ++ save_trace self.
Proof.
  intros Hl Hc Hcd Hdec (w & volume & Hw & Hlevel & Hloud) Hsub Hcat Hwrite.
  rewrite (run_after_load _ _ _ Hl). f_equal.
  assert (Hc0 : ~ chunk_duration self == 0) by (intros H0; lra).
  assert (Hn := int_at_least_one _ _ Hc Hcd).
  rewrite (analysis_phase_loop _ _ Hc0).
  set (n := Py.int (media_duration media / chunk_duration self)) in *.
  destruct (analyze_loop_succeeds self media n (windows self media))
    as [audio_chunks Ha]; [lia | exact Hdec |].
  destruct (analyze_loop_complete _ _ _ _ _ Ha) as (_ & Hchunks & _).
  destruct (analyze_loop self media n (windows self media)) as [tr1 r1].
  cbn [fst snd] in *. subst r1. cbn [bind].
  assert (Hdet : detect (threshold self) audio_chunks <> []).
  { assert (Hin : In (snd w) (detect (threshold self) audio_chunks)).
    { apply detect_In. exists volume. split; [| exact Hloud].
      rewrite Hchunks. apply in_flat_map. exists w. split; [exact Hw |].
      unfold chunk_of. rewrite Hlevel. now left. }
    intros Hnil. now rewrite Hnil in Hin. }
  unfold clips_phase. rewrite !bind_emit. cbn [fst snd].
  destruct (detect (threshold self) audio_chunks) as [| t0 rest];
    [congruence |].
  cbn [build_clips]. rewrite (subclips_ok _ _ Hsub). cbn [bind ret app fst snd].
  assert (Hne := clip_loop_nonempty (chunk_duration self)
                   (media_duration media) t0 t0 rest).
  destruct (clip_loop _ _ t0 t0 rest []) as [| s clips]; [congruence |].
  unfold save_phase, call. rewrite Hcat, Hwrite. reflexivity.
Qed.

Lemma run_finishes_witness :
  let self := init "foo.wav" (4 # 100) (1 # 10) in
  let media := clip (1 # 2) (fun _ => 1) in
  run self (always media) =
  load_trace ++ fst (analysis_phase self media) ++ clips_trace
             ++ save_trace self.
Proof.
  cbv zeta.
  apply (run_finishes (init "foo.wav" (4 # 100) (1 # 10))
                      (always (clip (1 # 2) (fun _ => 1)))
                      (clip (1 # 2) (fun _ => 1))).
  - reflexivity.
  - reflexivity.
  - discriminate.
  - discriminate.
  - exists (0%nat, grid (1 # 10) 0), 1. split; [now left |].
    split; reflexivity.
  - reflexivity.
  - reflexivity.
  - reflexivity.
Defined.

(** ** Detection (lines 59-63) *)

(** X13. Raising the threshold never adds a non-silent chunk: every time
    detected with the higher threshold is detected with the lower one, and
    a chunk is detected exactly when its level is strictly above the
    threshold. *)
Theorem detect_monotone (thr1 thr2 : Q) (audio_chunks : list (Q * Q)) :
  thr1 <= thr2 ->
  (forall t, In t (detect thr2 audio_chunks) -> In t (detect thr1 audio_chunks))
  /\ (List.length (detect thr2 audio_chunks)
      <= List.length (detect thr1 audio_chunks))%nat
  /\ (forall t, In t (detect thr2 audio_chunks) <->
                exists volume, In (t, volume) audio_chunks /\ thr2 < volume).
Proof.
  intros Hle. split; [| split].
  - intros t Hin. apply detect_In in Hin as (v & Hin & Hv).
    apply detect_In. exists v. split; [exact Hin | lra].
  - induction audio_chunks as [| [t v] audio_chunks IH]; simpl; [lia |].
    destruct (Qlt_le_dec thr2 v), (Qlt_le_dec thr1 v); simpl; try lia.
    lra.
  - intros t. apply detect_In.
Qed.

Lemma detect_monotone_witness :
  let audio_chunks := [(0 # 1, 1 # 10); (1 # 10, 6 # 10); (2 # 10, 3 # 10)] in
  (forall t, In t (detect (5 # 10) audio_chunks) ->
             In t (detect (2 # 10) audio_chunks)) /\
  (List.length (detect (5 # 10) audio_chunks)
   <= List.length (detect (2 # 10) audio_chunks))%nat.
Proof.
  cbv zeta.
  destruct (detect_monotone
              (2 # 10) (5 # 10)
              [(0 # 1, 1 # 10); (1 # 10, 6 # 10); (2 # 10, 3 # 10)])
    as (Hin & Hlen & _).
  - discriminate.
  - split; assumption.
Defined.

(** ** Strings: extensions and the output path (lines 21, 94-109) *)

Lemma length_app (a b : string) :
  String.length (a ++ b) = (String.length a + String.length b)%nat.
Proof. induction a as [| ch a IH]; simpl; [reflexivity | now rewrite IH]. Qed.

Lemma app_empty_r (a : string) : (a ++ "")%string = a.
Proof. induction a as [| ch a IH]; simpl; [reflexivity | now rewrite IH]. Qed.

Lemma app_assoc_string (a b c : string) :
  ((a ++ b) ++ c)%string = (a ++ (b ++ c))%string.
Proof. induction a as [| ch a IH]; simpl; [reflexivity | now rewrite IH]. Qed.

Lemma app_cancel_l (a b c : string) :
  (a ++ b)%string = (a ++ c)%string -> b = c.
Proof.
  induction a as [| ch a IH]; simpl; intros H; [exact H |].
  injection H as H. now apply IH.
Qed.

Lemma substring_skip (a b : string) : forall k n,
  substring (String.length a + k) n (a ++ b) = substring k n b.
Proof.
  induction a as [| ch a IH]; intros k n; simpl; [reflexivity | apply IH].
Qed.

Lemma slice_from_app (a b : string) :
  Py.slice_from (String.length a) (a ++ b) = b.
Proof.
  unfold Py.slice_from. rewrite length_app.
  replace (String.length a + String.length b - String.length a)%nat
    with (String.length b) by lia.
  rewrite <- (Nat.add_0_r (String.length a)) at 1.
  rewrite substring_skip. apply substring_all.
Qed.

Lemma slice_from_length k s :
  (k <= String.length s)%nat ->
  String.length (Py.slice_from k s) = (String.length s - k)%nat.
Proof.
  intros Hk. assert (H := slice_app s k).
  assert (Hlen := f_equal String.length H). rewrite length_app in Hlen.
  assert (Hto : String.length (Py.slice_to k s) = k).
  { clear - Hk. unfold Py.slice_to. revert k Hk.
    induction s as [| ch s IH]; intros [| k] Hk; simpl in *;
      try reflexivity; try lia.
    rewrite IH; [reflexivity | lia]. }
  lia.
Qed.

(** [s.endswith(suffix)] holds exactly when [s] is some prefix followed by
    [suffix]. *)
Lemma endswith_spec s suffix :
  Py.endswith s suffix = true <-> exists prefix, s = (prefix ++ suffix)%string.
Proof.
  unfold Py.endswith. rewrite andb_true_iff, Nat.leb_le, String.eqb_eq. split.
  - intros [Hlen Hs].
    exists (Py.slice_to (String.length s - String.length suffix) s).
    etransitivity;
      [symmetry;
       apply (slice_app s (String.length s - String.length suffix)) |].
    f_equal. exact Hs.
  - intros [prefix ->]. rewrite length_app. split; [lia |].
    replace (String.length prefix + String.length suffix
             - String.length suffix)%nat
      with (String.length prefix) by lia.
    apply slice_from_app.
Qed.

Lemma lower_app (a b : string) :
  Py.lower (a ++ b) = (Py.lower a ++ Py.lower b)%string.
Proof. induction a as [| ch a IH]; simpl; [reflexivity | now rewrite IH]. Qed.

Lemma lower_substring s : forall i n,
  Py.lower (substring i n s) = substring i n (Py.lower s).
Proof.
  induction s as [| ch s IH]; intros [| i] [| n]; simpl;
    try reflexivity; try apply IH.
  now rewrite IH.
Qed.

Lemma lower_length s : String.length (Py.lower s) = String.length s.
Proof. induction s as [| ch s IH]; simpl; [reflexivity | now rewrite IH]. Qed.

(** X14. The audio-only mode is decided by the extension alone and without
    regard to case: [is_audio_only] is set exactly when the input path is a
    stem followed by an ending whose lower-case form is one of [.mp3],
    [.wav], [.ogg], [.flac], [.aac]; the threshold and the chunk duration
    play no part. *)
Theorem audio_only_by_extension (path : string)
        (threshold chunk_duration : Q) :
  is_audio_only (init path threshold chunk_duration) = true <->
  exists stem ending,
    path = (stem ++ ending)%string /\ In (Py.lower ending) audio_extensions.
Proof.
  unfold init. cbn [is_audio_only]. unfold Py.endswith_any.
  rewrite existsb_exists. split.
  - intros (suffix & Hin & Hends).
    apply endswith_spec in Hends as [prefix Hlow].
    set (k := (String.length path - String.length suffix)%nat).
    exists (Py.slice_to k path), (Py.slice_from k path).
    split; [symmetry; apply slice_app |].
    unfold Py.slice_from. rewrite lower_substring, Hlow.
    assert (Hlen := f_equal String.length Hlow).
    rewrite lower_length, length_app in Hlen.
    assert (Hk : k = String.length prefix) by (unfold k; lia).
    rewrite Hk, Hlen.
    replace (String.length prefix + String.length suffix
             - String.length prefix)%nat
      with (String.length suffix) by lia.
    rewrite <- (Nat.add_0_r (String.length prefix)), substring_skip.
    now rewrite substring_all.
  - intros (stem & ending & -> & Hin).
    exists (Py.lower ending). split; [exact Hin |].
    apply endswith_spec. exists (Py.lower stem). apply lower_app.
Qed.

Lemma endswith_app_short a b suffix :
  (String.length suffix <= String.length b)%nat ->
  Py.endswith (a ++ b) suffix = Py.endswith b suffix.
Proof.
  intros Hlen. unfold Py.endswith, Py.slice_from. rewrite length_app.
  replace (String.length suffix <=? String.length a + String.length b)%nat
    with true by (symmetry; apply Nat.leb_le; lia).
  replace (String.length suffix <=? String.length b)%nat
    with true by (symmetry; now apply Nat.leb_le).
  replace (String.length a + String.length b - String.length suffix)%nat
    with (String.length a + (String.length b - String.length suffix))%nat
    by lia.
  rewrite substring_skip.
  replace (String.length a + String.length b
           - (String.length a + (String.length b - String.length suffix)))%nat
    with (String.length b - (String.length b - String.length suffix))%nat
    by lia.
  reflexivity.
Qed.

Lemma endswith_tail s a b :
  Py.endswith s (a ++ b) = true -> Py.endswith s b = true.
Proof.
  rewrite !endswith_spec. intros [prefix ->].
  exists (prefix ++ a)%string. now rewrite app_assoc_string.
Qed.

(** X15. The extensions offered by the file dialog (line 191) are sorted
    as intended, whatever precedes them in the path: a path ending in
    [.mp4], [.avi], [.mkv] or [.mov] is never audio-only, and a path ending
    in [.mp3], [.wav], [.ogg], [.flac] or [.aac], in lower or upper case,
    always is. *)
Theorem dialog_extensions (stem : string) (threshold chunk_duration : Q) :
  Forall (fun ending =>
            is_audio_only (init (stem ++ ending) threshold chunk_duration)
            = false)
         [".mp4"; ".avi"; ".mkv"; ".mov"]%string /\
  Forall (fun ending =>
            is_audio_only (init (stem ++ ending) threshold chunk_duration)
            = true)
         [".mp3"; ".wav"; ".ogg"; ".flac"; ".aac";
          ".MP3"; ".WAV"; ".OGG"; ".FLAC"; ".AAC"]%string.
Proof.
  split.
  - assert (H : forall ending,
               String.length ending = 4%nat ->
               Py.endswith_any (Py.lower ending)
                 [".mp3"; ".wav"; ".ogg"; "flac"; ".aac"]%string = false ->
               is_audio_only (init (stem ++ ending) threshold chunk_duration)
               = false).
    { intros ending Hlen Hnone. unfold init. cbn [is_audio_only].
      rewrite lower_app. unfold Py.endswith_any, audio_extensions in *.
      cbn [existsb] in *.
      assert (Hl : String.length (Py.lower ending) = 4%nat)
        by now rewrite lower_length.
      rewrite (endswith_app_short (Py.lower stem) (Py.lower ending) ".mp3"),
        (endswith_app_short (Py.lower stem) (Py.lower ending) ".wav"),
        (endswith_app_short (Py.lower stem) (Py.lower ending) ".ogg"),
        (endswith_app_short (Py.lower stem) (Py.lower ending) ".aac")
        by (rewrite Hl; simpl; lia).
      destruct (Py.endswith (Py.lower stem ++ Py.lower ending) ".flac")
        eqn:Hflac.
      - apply (endswith_tail _ "." "flac") in Hflac.
        rewrite (endswith_app_short (Py.lower stem) (Py.lower ending))
          in Hflac by (rewrite Hl; simpl; lia).
        rewrite Hflac in Hnone. rewrite !orb_true_r in Hnone.
        discriminate Hnone.
      - apply orb_false_iff in Hnone as [H1 Hnone].
        apply orb_false_iff in Hnone as [H2 Hnone].
        apply orb_false_iff in Hnone as [H3 Hnone].
        apply orb_false_iff in Hnone as [_ Hnone].
        apply orb_false_iff in Hnone as [H5 _].
        now rewrite H1, H2, H3, H5. }
    repeat constructor; apply H; reflexivity.
  - assert (H : forall ending,
               In (Py.lower ending) audio_extensions ->
               is_audio_only (init (stem ++ ending) threshold chunk_duration)
               = true).
    { intros ending Hin. unfold init. cbn [is_audio_only].
      unfold Py.endswith_any. apply existsb_exists.
      exists (Py.lower ending). split; [exact Hin |].
      apply endswith_spec. exists (Py.lower stem). apply lower_app. }
    repeat constructor; apply H; vm_compute; tauto.
Qed.

Lemma rfind_from_spec ch s : forall i last,
  Py.rfind_from ch s i last = last \/
  (i <= Py.rfind_from ch s i last)%Z /\
  String.get (Z.to_nat (Py.rfind_from ch s i last - i)) s = Some ch.
Proof.
  induction s as [| a s IH]; intros i last; simpl; [now left |].
  destruct (Ascii.eqb a ch) eqn:Ha.
  - apply Ascii.eqb_eq in Ha. subst a.
    destruct (IH (i + 1)%Z i) as [-> | [Hle Hget]].
    + right. split; [lia |]. now rewrite Z.sub_diag.
    + right. split; [lia |].
      replace (Z.to_nat (Py.rfind_from ch s (i + 1) i - i))
        with (S (Z.to_nat (Py.rfind_from ch s (i + 1) i - (i + 1)))) by lia.
      exact Hget.
  - destruct (IH (i + 1)%Z last) as [-> | [Hle Hget]]; [now left |].
    right. split; [lia |].
    replace (Z.to_nat (Py.rfind_from ch s (i + 1) last - i))
      with (S (Z.to_nat (Py.rfind_from ch s (i + 1) last - (i + 1)))) by lia.
    exact Hget.
Qed.

Lemma slice_from_get s : forall k a,
  String.get k s = Some a ->
  exists rest, Py.slice_from k s = String a rest.
Proof.
  unfold Py.slice_from.
  induction s as [| b s IH]; intros [| k] a Hget; simpl in *;
    try discriminate.
  - injection Hget as <-. eauto.
  - apply IH. exact Hget.
Qed.

(** The extension returned by [splitext] is empty or starts with a dot. *)
Lemma splitext_ext p :
  snd (Py.splitext p) = EmptyString \/
  exists rest, snd (Py.splitext p) = String "." rest.
Proof.
  unfold Py.splitext.
  destruct (Py.rfind p "/" <? Py.rfind p ".")%Z eqn:Hlt; [| now left].
  destruct (existsb _ _); [| now left].
  right. cbn [snd]. apply Z.ltb_lt in Hlt.
  unfold Py.rfind in *.
  destruct (rfind_from_spec "." p 0 (-1)) as [Heq | [_ Hget]].
  - exfalso.
    destruct (rfind_from_spec "/" p 0 (-1)) as [Hs | [Hs _]]; lia.
  - rewrite Z.sub_0_r in Hget. now apply slice_from_get.
Qed.

(** X16. The run never overwrites its input.  The stem and the extension
    computed at lines 94 and 99 put together give back the input path, the
    extension is empty or starts with a dot, and the output path differs
    from the input path, for audio as for video. *)
Theorem output_path_differs (self : SilenceRemover) :
  (fst (Py.splitext (input_path self))
   ++ snd (Py.splitext (input_path self)))%string = input_path self /\
  (snd (Py.splitext (input_path self)) = EmptyString \/
   exists rest, snd (Py.splitext (input_path self)) = String "." rest) /\
  output_path_of self <> input_path self.
Proof.
  split; [apply splitext_app |]. split; [apply splitext_ext |].
  unfold output_path_of. intros Heq.
  assert (Heq' := eq_trans Heq (eq_sym (splitext_app (input_path self)))).
  clear Heq. rename Heq' into Heq. apply app_cancel_l in Heq.
  destruct (is_audio_only self).
  - apply (f_equal String.length) in Heq. rewrite length_app in Heq.
    simpl in Heq. lia.
  - destruct (splitext_ext (input_path self)) as [He | [rest He]];
      rewrite He in Heq; discriminate Heq.
Qed.

(** ** The main window (lines 130-224) *)

(** X17. The worker started from the window.  For a slider value [v]
    within the range of the slider (1 to 200) and a file that was chosen,
    [select_media] starts a worker on that file with the threshold
    [(v + 1) / 10000], which lies between 0.0002 and 0.0201 and so below the
    default 0.04 of the constructor, and with the default chunk duration
    0.1; it disables the button, shows the progress bar and resets it to
    0. *)
Theorem select_media_starts_worker (w : MainWindow) (file_path : string) :
  file_path <> EmptyString ->
  (slider_minimum <= threshold_slider w <= slider_maximum)%Z ->
  exists self,
    worker (select_media w file_path) = Some self /\
    input_path self = file_path /\
    threshold self == inject_Z (threshold_slider w + 1) / 10000 /\
    2 # 10000 <= threshold self /\ threshold self <= 201 # 10000 /\
    threshold self < default_threshold /\
    chunk_duration self = default_chunk_duration /\
    0 < chunk_duration self /\
    select_button_enabled (select_media w file_path) = false /\
    progress_bar_visible (select_media w file_path) = true /\
    progress_bar_value (select_media w file_path) = 0%Z /\
    status_label (select_media w file_path) = "Processing media..."%string.
Proof.
  intros Hpath [Hlo Hhi]. unfold slider_minimum, slider_maximum in *.
  destruct file_path as [| a file_path]; [congruence |].
  unfold select_media, set_value. cbn [Z.leb Z.compare andb worker].
  eexists. split; [reflexivity |].
  cbn [init input_path threshold chunk_duration select_button_enabled
       progress_bar_visible progress_bar_value status_label].
  set (v := threshold_slider w) in *.
  assert (Hthr : slider_threshold v == inject_Z (v + 1) / 10000).
  { unfold slider_threshold. rewrite inject_Z_plus. field. }
  assert (H1 : inject_Z 1 <= inject_Z v) by now rewrite <- Zle_Qle.
  assert (H200 : inject_Z v <= inject_Z 200) by now rewrite <- Zle_Qle.
  change (inject_Z 1) with 1 in H1. change (inject_Z 200) with 200 in H200.
  assert (Hval : slider_threshold v == (1 # 10000) + inject_Z v * (1 # 10000))
    by (unfold slider_threshold; field).
  unfold default_threshold, default_chunk_duration.
  repeat split; try reflexivity; try exact Hthr; rewrite ?Hval; lra.
Qed.

Lemma select_media_starts_worker_witness :
  exists self,
    worker (select_media new_window "foo.wav") = Some self /\
    input_path self = "foo.wav"%string /\
    threshold self == inject_Z (40 + 1) / 10000 /\
    2 # 10000 <= threshold self /\ threshold self <= 201 # 10000 /\
    threshold self < default_threshold /\
    chunk_duration self = default_chunk_duration /\
    0 < chunk_duration self /\
    select_button_enabled (select_media new_window "foo.wav") = false /\
    progress_bar_visible (select_media new_window "foo.wav") = true /\
    progress_bar_value (select_media new_window "foo.wav") = 0%Z /\
    status_label (select_media new_window "foo.wav")
    = "Processing media..."%string.
Proof.
  apply (select_media_starts_worker new_window "foo.wav").
  - discriminate.
  - split; discriminate.
Defined.

Lemma deliver_app w tr1 tr2 :
  deliver w (tr1 ++ tr2) = deliver (deliver w tr1) tr2.
Proof. apply fold_left_app. Qed.

(** Signals other than [finished] and [error] leave the button, the
    visibility of the progress bar, the slider and the worker as they are. *)
Lemma deliver_keeps w tr :
  Forall (fun e => is_terminal e = false) tr ->
  select_button_enabled (deliver w tr) = select_button_enabled w /\
  progress_bar_visible (deliver w tr) = progress_bar_visible w /\
  threshold_slider (deliver w tr) = threshold_slider w /\
  worker (deliver w tr) = worker w.
Proof.
  intros H. revert w. induction H as [| e tr He _ IH]; intros w; [auto |].
  change (deliver w (e :: tr)) with (deliver (slot w e) tr).
  destruct (IH (slot w e)) as (-> & -> & -> & ->).
  destruct e; simpl in *; try discriminate; auto.
  unfold update_progress, set_value.
  destruct ((0 <=? value) && (value <=? 100))%Z; auto.
Qed.

(** Every run ends with one terminal signal that follows events without
    one, and its progress values rise within 10 and 100. *)
Lemma run_ends self lib :
  exists pre last,
    run self lib = pre ++ [last] /\
    Forall (fun e => is_terminal e = false) pre /\
    rising 10 100 (progress_values pre) /\
    ((exists msg, last = Error msg) \/
     (last = Finished (output_path_of self) /\
      exists pre', pre = pre' ++ [Progress 100])).
Proof.
  destruct (run_cases self lib)
    as [(pre & msg & -> & Hq & Hr) | (media & chunks & _ & _ & ->)].
  - exists pre, (Error msg). split; [reflexivity |].
    split; [now apply quiet_not_terminal |]. split; [exact Hr |]. eauto.
  - assert (Hq := analysis_phase_quiet self media).
    assert (Hr := analysis_phase_rising self media).
    set (tr := fst (analysis_phase self media)) in *.
    rewrite success_split. eexists. eexists. split; [reflexivity |].
    split; [| split].
    + repeat (apply Forall_app; split);
        try (now apply quiet_not_terminal); repeat constructor.
    + rewrite !progress_values_app. simpl.
      apply (rising_cons _ 10); [lia | lia |].
      apply (rising_app _ 40); [lia | exact Hr |].
      split; repeat constructor; lia.
    + right. split; [reflexivity |].
      exists (load_trace ++ tr ++ clips_trace
                         ++ [Progress 70; Status "Combining clips...";
                             saving_status self;
                             Written (output_path_of self); FinalClosed;
                             MediaClosed]).
      rewrite <- !app_assoc. reflexivity.
Qed.

(** X18. The window after a file was processed.  Whatever the file and the
    behaviour of MoviePy, once the signals of the run are delivered the
    button is enabled again and the slider is unchanged; the status is
    either "Done! Saved as:" followed by the output path on a new line, with
    the progress bar still shown at 100, or "Error: " followed by the
    message, with the progress bar hidden. *)
Theorem window_after_processing (w : MainWindow) (lib : MoviePy)
        (file_path : string) :
  file_path <> EmptyString ->
  let w' := process_file w lib file_path in
  select_button_enabled w' = true /\
  threshold_slider w' = threshold_slider w /\
  ((exists self,
       worker w' = Some self /\
       status_label w'
       = ("Done! Saved as:" ++ newline ++ output_path_of self)%string /\
       In (Finished (output_path_of self)) (run self lib) /\
       progress_bar_visible w' = true /\ progress_bar_value w' = 100%Z) \/
   (exists self msg,
       worker w' = Some self /\
       status_label w' = ("Error: " ++ msg)%string /\
       In (Error msg) (run self lib) /\
       progress_bar_visible w' = false)).
Proof.
  intros Hpath. destruct file_path as [| a file_path]; [congruence |].
  cbv zeta. unfold process_file.
  set (w1 := select_media w (String a file_path)).
  assert (Hw1 : worker w1 = Some (init (String a file_path)
                                       (slider_threshold (threshold_slider w))
                                       default_chunk_duration) /\
                progress_bar_visible w1 = true /\
                threshold_slider w1 = threshold_slider w)
    by (unfold w1, select_media, set_value; simpl; auto).
  destruct Hw1 as (Hworker & Hvis & Hslider). rewrite Hworker.
  set (self := init _ _ _) in *.
  destruct (run_ends self lib) as (pre & last & Hrun & Hpre & _ & Hlast).
  rewrite Hrun, deliver_app.
  destruct (deliver_keeps w1 pre Hpre) as (Hb & Hv & Hs & Hwk).
  destruct Hlast as [[msg ->] | [-> [pre' Hpre']]]; simpl.
  - split; [reflexivity |]. split; [congruence |].
    right. exists self, msg. repeat split; try congruence.
    rewrite Hrun. apply in_or_app. right. now left.
  - split; [reflexivity |]. split; [congruence |].
    left. exists self. repeat split; try congruence.
    + rewrite Hrun. apply in_or_app. right. now left.
    + rewrite Hpre', deliver_app. reflexivity.
Qed.

Lemma window_after_processing_witness :
  let w' := process_file new_window (always (clip (1 # 2) (fun _ => 1)))
                         "foo.wav" in
  select_button_enabled w' = true /\
  status_label w'
  = ("Done! Saved as:" ++ newline ++ "foo_no_silence.wav")%string /\
  progress_bar_value w' = 100%Z.
Proof.
  cbv zeta.
  destruct (window_after_processing
              new_window (always (clip (1 # 2) (fun _ => 1))) "foo.wav")
    as (Hbutton & _ & _).
  - discriminate.
  - split; [exact Hbutton |]. split; reflexivity.
Defined.

Lemma prefix_of_run self lib pre post :
  run self lib = pre ++ post -> post <> [] ->
  Forall (fun e => is_terminal e = false) pre.
Proof.
  intros Hrun Hpost.
  destruct (run_ends self lib) as (pre0 & last & Hrun0 & Hpre0 & _).
  destruct (exists_last Hpost) as (post' & e & ->).
  rewrite Hrun0, app_assoc in Hrun.
  apply app_inj_tail in Hrun as [-> _].
  now apply Forall_app in Hpre0 as [Hpre0 _].
Qed.

(** X19. No second run can be started while one is in progress: from
    [select_media] until the last signal of the run is delivered, the
    button stays disabled and the progress bar stays shown. *)
Theorem button_disabled_during_run (w : MainWindow) (lib : MoviePy)
        (file_path : string) (pre post : list event) :
  file_path <> EmptyString ->
  run (init file_path (slider_threshold (threshold_slider w))
            default_chunk_duration) lib = pre ++ post ->
  post <> [] ->
  select_button_enabled (deliver (select_media w file_path) pre) = false /\
  progress_bar_visible (deliver (select_media w file_path) pre) = true.
Proof.
  intros Hpath Hrun Hpost.
  assert (Hpre := prefix_of_run _ _ _ _ Hrun Hpost).
  destruct (deliver_keeps (select_media w file_path) pre Hpre)
    as (-> & -> & _).
  destruct file_path; [congruence |].
  unfold select_media, set_value. simpl. auto.
Qed.

Lemma button_disabled_during_run_witness :
  select_button_enabled
    (deliver (select_media new_window "foo.wav")
             [Status "Loading media..."; Opened; Progress 10]) = false /\
  progress_bar_visible
    (deliver (select_media new_window "foo.wav")
             [Status "Loading media..."; Opened; Progress 10]) = true.
Proof.
  eapply (button_disabled_during_run
            new_window (always (clip (1 # 2) (fun _ => 0))) "foo.wav").
  - discriminate.
  - vm_compute. reflexivity.
  - discriminate.
Defined.

Lemma last_In {A : Type} (l : list A) (x : A) :
  l <> [] -> In (last l x) l.
Proof.
  induction l as [| a l IH]; intros Hne; [congruence |].
  destruct l as [| b l]; [now left |].
  right. apply IH. discriminate.
Qed.

Lemma last_ge x l : Forall (fun v => (x <= v)%Z) l -> (x <= last l x)%Z.
Proof.
  induction 1 as [| v l Hv Hl IH]; [simpl; lia |].
  rewrite last_cons_self.
  clear IH. revert v Hv. induction Hl as [| u l Hu Hl IH]; intros v Hv.
  - simpl. exact Hv.
  - rewrite last_cons_self. apply IH. exact Hu.
Qed.

Lemma last_prefix_le a : forall b x,
  StronglySorted Z.le (a ++ b) -> Forall (fun v => (x <= v)%Z) (a ++ b) ->
  (last a x <= last (a ++ b) x)%Z.
Proof.
  induction a as [| v a IH]; intros b x Hs Hx.
  - simpl. now apply last_ge.
  - change ((v :: a) ++ b) with (v :: (a ++ b)) in *.
    rewrite !last_cons_self.
    apply StronglySorted_inv in Hs as [Hs Hv]. now apply IH.
Qed.

(** The value shown by the progress bar once a trace is delivered is the
    last progress value of the trace. *)
Lemma deliver_value tr : forall w,
  Forall (fun v => (0 <= v <= 100)%Z) (progress_values tr) ->
  progress_bar_value (deliver w tr)
  = last (progress_values tr) (progress_bar_value w).
Proof.
  induction tr as [| e tr IH]; intros w Hr; [reflexivity |].
  change (deliver w (e :: tr)) with (deliver (slot w e) tr).
  destruct e; cbn [progress_values] in *; try (rewrite IH by exact Hr);
    try reflexivity.
  apply Forall_cons_iff in Hr as [Hv Hr].
  rewrite IH by exact Hr. rewrite last_cons_self.
  f_equal. unfold slot, update_progress, set_value.
  replace ((0 <=? value) && (value <=? 100))%Z with true; [reflexivity |].
  symmetry. apply andb_true_iff. split; apply Z.leb_le; lia.
Qed.

Lemma run_progress_rising self lib :
  rising 10 100 (progress_values (run self lib)).
Proof.
  destruct (run_ends self lib) as (pre & last & -> & _ & Hr & Hlast).
  rewrite progress_values_app.
  replace (progress_values [last]) with (@nil Z);
    [now rewrite app_nil_r |].
  destruct Hlast as [[msg ->] | [-> _]]; reflexivity.
Qed.

(** X20. The progress bar never goes backwards: at any two moments of a
    run started from the window, the value shown at the later moment is at
    least the value shown at the earlier one, and it stays within 0 and
    100. *)
Theorem progress_bar_never_goes_back (w : MainWindow) (lib : MoviePy)
        (file_path : string) (pre mid post : list event) :
  file_path <> EmptyString ->
  run (init file_path (slider_threshold (threshold_slider w))
            default_chunk_duration) lib = pre ++ mid ++ post ->
  (0 <= progress_bar_value (deliver (select_media w file_path) pre))%Z /\
  (progress_bar_value (deliver (select_media w file_path) pre)
   <= progress_bar_value (deliver (select_media w file_path) (pre ++ mid)))%Z
  /\
  (progress_bar_value (deliver (select_media w file_path) (pre ++ mid))
   <= 100)%Z.
Proof.
  intros Hpath Hrun.
  assert (Hr := run_progress_rising
                  (init file_path (slider_threshold (threshold_slider w))
                        default_chunk_duration) lib).
  rewrite Hrun, !progress_values_app in Hr. destruct Hr as [Hsort Hrange].
  rewrite app_assoc in Hsort, Hrange.
  assert (Hs12 : StronglySorted Z.le
                   (progress_values pre ++ progress_values mid)).
  { clear - Hsort. revert Hsort.
    generalize (progress_values pre ++ progress_values mid) as l.
    induction l as [| v l IH]; intros Hs; [constructor |].
    simpl in Hs. apply StronglySorted_inv in Hs as [Hs Hv].
    constructor; [now apply IH |]. now apply Forall_app in Hv as [Hv _]. }
  apply Forall_app in Hrange as [Hrange _].
  assert (Hr1 : Forall (fun v => (0 <= v <= 100)%Z) (progress_values pre)).
  { apply Forall_app in Hrange as [Hrange _].
    eapply Forall_impl; [| exact Hrange]. simpl. lia. }
  assert (Hr12 : Forall (fun v => (0 <= v <= 100)%Z)
                        (progress_values (pre ++ mid))).
  { rewrite progress_values_app.
    eapply Forall_impl; [| exact Hrange]. simpl. lia. }
  rewrite !deliver_value by assumption.
  assert (H0 : progress_bar_value (select_media w file_path) = 0%Z)
    by (destruct file_path; [congruence | reflexivity]).
  rewrite H0, progress_values_app.
  assert (Hge : Forall (fun v => (0 <= v)%Z)
                       (progress_values pre ++ progress_values mid))
    by (eapply Forall_impl; [| exact Hrange]; simpl; lia).
  split; [| split].
  - apply last_ge. now apply Forall_app in Hge as [Hge _].
  - now apply last_prefix_le.
  - destruct (progress_values pre ++ progress_values mid) as [| v l] eqn:Hl;
      [simpl; lia |].
    assert (Hin : In (last (v :: l) 0%Z) (v :: l))
      by (apply last_In; discriminate).
    rewrite Forall_forall in Hrange. apply Hrange in Hin. lia.
Qed.

Lemma progress_bar_never_goes_back_witness :
  let w1 := select_media new_window "foo.wav" in
  let pre := [Status "Loading media..."; Opened; Progress 10] in
  let mid := [Status "Analyzing audio..."; Decoded (0 # 10) (10 # 100);
              Progress 10; Decoded (1 # 10) (20 # 100); Progress 16] in
  (0 <= progress_bar_value (deliver w1 pre))%Z /\
  (progress_bar_value (deliver w1 pre)
   <= progress_bar_value (deliver w1 (pre ++ mid)))%Z /\
  (progress_bar_value (deliver w1 (pre ++ mid)) <= 100)%Z.
Proof.
  cbv zeta.
  eapply (progress_bar_never_goes_back
            new_window (always (clip (1 # 2) (fun _ => 1))) "foo.wav").
  - discriminate.
  - vm_compute. reflexivity.
Defined.

(** ** Media without silence *)

Lemma detect_all_loud thr audio_chunks :
  Forall (fun chunk => thr < snd chunk) audio_chunks ->
  detect thr audio_chunks = map fst audio_chunks.
Proof.
  induction 1 as [| [t volume] audio_chunks Hlt _ IH]; simpl; [reflexivity |].
  destruct (Qlt_le_dec thr volume) as [_ | Hle]; [now rewrite IH |].
  simpl in Hlt. lra.
Qed.

Lemma chunks_all_loud self media ws :
  (forall t end_t,
      exists volume,
        soundarray_rms media t end_t = Level volume /\
        threshold self < volume) ->
  Forall (fun chunk => threshold self < snd chunk)
         (flat_map (fun w : nat * Q => chunk_of self media (snd w)) ws) /\
  map fst (flat_map (fun w : nat * Q => chunk_of self media (snd w)) ws)
  = map snd ws.
Proof.
  intros Hloud. induction ws as [| [i t] ws [IH1 IH2]]; simpl.
  - split; [constructor | reflexivity].
  - unfold chunk_of at 1 3.
    destruct (Hloud t (snd (window_of self media t))) as (v & -> & Hv).
    simpl. split; [now constructor | now rewrite IH2].
Qed.

(** X21. Nothing is removed from media without silence.  When the media
    lasts at least one (positive) chunk duration and every window is louder
    than the threshold, the analysis completes and the segment-building step
    produces exactly one clip, which starts at 0 and ends at the duration of
    the media. *)
Theorem all_loud_one_clip (self : SilenceRemover) (media : Media) :
  0 < chunk_duration self -> chunk_duration self <= media_duration media ->
  (forall t end_t,
      exists volume,
        soundarray_rms media t end_t = Level volume /\
        threshold self < volume) ->
  exists audio_chunks clip,
    snd (analysis_phase self media) = inr audio_chunks /\
    build_clips (chunk_duration self) (media_duration media)
                (detect (threshold self) audio_chunks) = Some [clip] /\
    seg_start clip == 0 /\ seg_end clip == media_duration media.
Proof.
  intros Hc Hcd Hloud.
  set (c := chunk_duration self) in *. set (d := media_duration media) in *.
  assert (Hc0 : ~ c == 0) by (intros H0; lra).
  assert (Hn := int_at_least_one _ _ Hc Hcd).
  destruct (analyze_loop_succeeds self media (Py.int (d / c))
                                  (windows self media))
    as [audio_chunks Ha]; [lia | |].
  { intros t end_t msg Hraise.
    destruct (Hloud t end_t) as (v & Hv & _). congruence. }
  destruct (analyze_loop_complete _ _ _ _ _ Ha) as (_ & Hchunks & _).
  destruct (chunks_all_loud self media (windows self media) Hloud)
    as [Hall Hfst].
  rewrite <- Hchunks in Hall, Hfst.
  assert (Hphase : snd (analysis_phase self media) = inr audio_chunks)
    by (rewrite (analysis_phase_loop _ _ Hc0); exact Ha).
  assert (Hq : Qceiling ((d - 0) / c) = Qceiling (d / c))
    by (apply Qceiling_comp; unfold Qdiv; ring).
  assert (Hd : 0 <= d) by lra.
  assert (Htop := grid_at_ceiling c d Hc Hd).
  assert (Hpos : (0 < Qceiling (d / c))%Z).
  { assert (H0 : 0 < d / c) by (apply Qlt_shift_div_l; [exact Hc | lra]).
    assert (H1 := Qle_ceiling (d / c)).
    assert (H2 : inject_Z 0 < inject_Z (Qceiling (d / c)))
      by (eapply Qlt_le_trans; eassumption).
    now rewrite <- Zlt_Qlt in H2. }
  assert (Htimes : detect (threshold self) audio_chunks
                   = map (grid c) (seq 0 (Z.to_nat (Qceiling (d / c))))).
  { rewrite (detect_all_loud _ _ Hall), Hfst, windows_eq, map_map.
    fold c d. rewrite Hq. reflexivity. }
  destruct (Z.to_nat (Qceiling (d / c))) as [| n] eqn:Hlen; [lia |].
  exists audio_chunks,
    (padded c d (grid c 0) (last (map (grid c) (seq 1 n)) (grid c 0))).
  split; [exact Hphase |]. split.
  - rewrite Htimes. cbn [seq map build_clips].
    rewrite clip_loop_single; [reflexivity |].
    change (grid c 0 :: map (grid c) (seq 1 n))
      with (map (grid c) (seq 0 (S n))).
    apply Sorted_map_seq. intros i _ _. rewrite grid_S. lra.
  - unfold padded. cbn [seg_start seg_end].
    rewrite <- (last_cons_self _ _ (grid c 0)).
    change (grid c 0 :: map (grid c) (seq 1 n))
      with (map (grid c) (seq 0 (S n))).
    rewrite last_map_seq. simpl Nat.add.
    assert (H0 : grid c 0 == 0) by (unfold grid, inject_Z; simpl; ring).
    assert (Hs := grid_S c n).
    split.
    + unfold Py.max. destruct (Qlt_le_dec 0 (grid c 0 - c)); [lra |].
      apply Qeq_refl.
    + unfold Py.min. destruct (Qlt_le_dec (grid c n + c) d); [lra |].
      apply Qeq_refl.
Qed.

Lemma all_loud_one_clip_witness :
  let self := init "foo.wav" (4 # 100) (1 # 10) in
  let media := clip (25 # 100) (fun _ => 1) in
  exists audio_chunks clip,
    snd (analysis_phase self media) = inr audio_chunks /\
    build_clips (chunk_duration self) (media_duration media)
                (detect (threshold self) audio_chunks) = Some [clip] /\
    seg_start clip == 0 /\ seg_end clip == media_duration media.
Proof.
  cbv zeta.
  apply (all_loud_one_clip (init "foo.wav" (4 # 100) (1 # 10))
                           (clip (25 # 100) (fun _ => 1))).
  - reflexivity.
  - discriminate.
  - intros t end_t. exists 1. split; reflexivity.
Defined.
